(** * checkly-mcp: the guarded update and the triggered-run await workflows

    A shallow embedding of [src/client.ts] (configuration and the HTTP
    boundary), [src/index.ts] (the tool dispatcher) and
    [src/tools/checks.ts] ([updateCheck], [runCheck]), with the properties
    the specification states about them.

    Modelling conventions.
    - A JavaScript string is its sequence of UTF-16 code units, so that
      [length] and [slice] count what the source counts.
    - A JavaScript value is a JSON-like tree extended with [undefined].
      Numbers are the integer-valued ones ([Z]): check frequencies are
      minutes and elapsed times are milliseconds.
    - An object is its list of own properties in insertion order.
    - The remote service, the clock and the timers are an explicit world
      that is threaded through every call. *)

From Stdlib Require Import List ZArith NArith String Ascii Bool Lia DecimalString.
Import ListNotations.
Open Scope Z_scope.

(** ** JavaScript strings *)

Definition jsstring := list N.

(** A literal of the source whose characters are all ASCII. *)
Definition u16 (s : string) : jsstring :=
  map N_of_ascii (list_ascii_of_string s).

Fixpoint str_eqb (a b : jsstring) : bool :=
  match a, b with
  | [], [] => true
  | x :: a', y :: b' => N.eqb x y && str_eqb a' b'
  | _, _ => false
  end.

(** U+2026, the horizontal ellipsis appended to a truncated preview. *)
Definition ellipsis : jsstring := [8230%N].
(** U+2014 and U+2192, used in two messages. *)
Definition em_dash : jsstring := [8212%N].
Definition right_arrow : jsstring := [8594%N].

(** [s.slice(0, n)] for [0 <= n]. *)
Definition slice0 (n : nat) (s : jsstring) : jsstring := firstn n s.

(** The decimal digits of an integer, with a leading [-] when it is
    negative.  A template literal writes an integer this way while its
    magnitude is at most 2^53; [request] uses it for [res.status], an
    unsigned 16-bit integer. *)
Definition decimal (z : Z) : jsstring :=
  u16 (NilZero.string_of_int (Z.to_int z)).

(** ** JavaScript values *)

Set Warnings "-register-all".

Inductive jsval : Type :=
| JUndefined
| JNull
| JBool (b : bool)
| JNum (n : Z)
| JStr (s : jsstring)
| JArr (l : list jsval)
| JObj (o : list (jsstring * jsval)).

Definition jsobj := list (jsstring * jsval).

Definition is_undefined (v : jsval) : bool :=
  match v with JUndefined => true | _ => false end.

(** [a === b].  Primitives compare by value.  Two arrays or two objects
    are equal only when they are the same allocation; every comparison in
    [updateCheck] is between a value parsed from the HTTP response and a
    value taken from the tool-call arguments, which never share one. *)
Definition strict_eq (a b : jsval) : bool :=
  match a, b with
  | JUndefined, JUndefined => true
  | JNull, JNull => true
  | JBool x, JBool y => Bool.eqb x y
  | JNum x, JNum y => Z.eqb x y
  | JStr x, JStr y => str_eqb x y
  | _, _ => false
  end.

(** [Boolean(v)]. *)
Definition to_boolean (v : jsval) : bool :=
  match v with
  | JUndefined | JNull => false
  | JBool b => b
  | JNum n => negb (Z.eqb n 0)
  | JStr s => match s with [] => false | _ => true end
  | JArr _ | JObj _ => true
  end.

(** [a ?? b]. *)
Definition nullish (a b : jsval) : jsval :=
  match a with JUndefined | JNull => b | _ => a end.

(** ** Objects *)

(** [o[k]]: the value of own property [k], [undefined] when there is none. *)
Fixpoint get (k : jsstring) (o : jsobj) : jsval :=
  match o with
  | [] => JUndefined
  | (k', v) :: r => if str_eqb k k' then v else get k r
  end.

Fixpoint has (k : jsstring) (o : jsobj) : bool :=
  match o with
  | [] => false
  | (k', _) :: r => str_eqb k k' || has k r
  end.

(** [o[k] = v]: an existing property keeps its position, a new one is
    added last. *)
Fixpoint set (k : jsstring) (v : jsval) (o : jsobj) : jsobj :=
  match o with
  | [] => [(k, v)]
  | (k', v') :: r => if str_eqb k k' then (k', v) :: r else (k', v') :: set k v r
  end.

(** [Object.entries(o)] and [Object.keys(o)]. *)
Definition entries (o : jsobj) : list (jsstring * jsval) := o.
Definition keys (o : jsobj) : list jsstring := map fst o.

(** The spread [{ ...target, ...source }] copies every own property of
    [source], in order, onto the object built so far; a property whose
    value is [undefined] is copied like any other. *)
Fixpoint spread (target source : jsobj) : jsobj :=
  match source with
  | [] => target
  | (k, v) :: r => spread (set k v target) r
  end.

(** An object has each property name once. *)
Definition wf_obj (o : jsobj) : Prop := NoDup (keys o).

(** ** JSON serialisation

    [serialize v] is the JSON value denoted by the text
    [JSON.stringify(v)], for [v] other than [undefined]: a property whose
    value is [undefined] is left out, an [undefined] array element is
    written [null]. *)
Fixpoint serialize (v : jsval) : jsval :=
  match v with
  | JArr l =>
      JArr (map (fun x => match x with
                          | JUndefined => JNull
                          | _ => serialize x
                          end) l)
  | JObj o =>
      JObj ((fix props (o : list (jsstring * jsval)) : list (jsstring * jsval) :=
               match o with
               | [] => []
               | (k, x) :: r =>
                   match x with
                   | JUndefined => props r
                   | _ => (k, serialize x) :: props r
                   end
               end) o)
  | _ => v
  end.

(** The properties of a serialised object. *)
Definition serialize_props (o : jsobj) : jsobj :=
  match serialize (JObj o) with
  | JObj o' => o'
  | _ => []
  end.

(** ** Configuration ([client.ts], [getConfig]) *)

Record ChecklyConfig := mkConfig {
  apiKey : jsstring;
  accountId : jsstring;
  readOnly : bool
}.

(** A thrown [Error], by its message. *)
Definition Error := jsstring.

Definition CHECKLY_API_KEY := u16 "CHECKLY_API_KEY".
Definition CHECKLY_ACCOUNT_ID := u16 "CHECKLY_ACCOUNT_ID".
Definition CHECKLY_READ_ONLY := u16 "CHECKLY_READ_ONLY".

(** [process.env]: a variable is a string or is not set. *)
Definition Env := jsstring -> option jsstring.

(** [s !== lit] for [s : string | undefined]. *)
Definition differs_from (s : option jsstring) (lit : jsstring) : bool :=
  match s with
  | None => true
  | Some x => negb (str_eqb x lit)
  end.

(** [if (!apiKey) throw ...]: an unset variable and the empty string are
    both falsy. *)
Definition getConfig (env : Env) : Error + ChecklyConfig :=
  match env CHECKLY_API_KEY with
  | None | Some [] => inl (u16 "CHECKLY_API_KEY env var required")
  | Some ((_ :: _) as k) =>
      match env CHECKLY_ACCOUNT_ID with
      | None | Some [] => inl (u16 "CHECKLY_ACCOUNT_ID env var required")
      | Some ((_ :: _) as a) =>
          inr {| apiKey := k;
                 accountId := a;
                 readOnly := differs_from (env CHECKLY_READ_ONLY) (u16 "false") |}
      end
  end.

(** ** The world outside the process

    Every remote call and every armed timer is recorded, with the clock
    reading at which it was issued.  The clock is the one [Date.now()]
    reads; it moves only while the program waits for a timer or for a
    response. *)

Inductive Method := GET | POST | PUT.

Definition method_name (m : Method) : jsstring :=
  match m with
  | GET => u16 "GET"
  | POST => u16 "POST"
  | PUT => u16 "PUT"
  end.

(** What [fetch] is given: the method, the path below [BASE_URL], and the
    JSON body when there is one.  The three headers are the same on every
    call and are left out of the record. *)
Record Call := mkCall {
  c_method : Method;
  c_path : jsstring;
  c_body : option jsval
}.

Inductive Event :=
| Paused (at_ms : Z) (ms : Z)      (* [setTimeout(r, ms)] armed at [at_ms] *)
| Called (at_ms : Z) (c : Call).   (* [fetch] issued at [at_ms] *)

Record World := mkWorld {
  clock : Z;
  events : list Event
}.

Definition is_call (e : Event) : bool :=
  match e with Called _ _ => true | Paused _ _ => false end.

Definition is_pause (e : Event) : bool :=
  match e with Paused _ _ => true | Called _ _ => false end.

(** How many remote calls, and how many timers, there have been so far. *)
Definition ncalls (w : World) : nat := List.length (filter is_call (events w)).
Definition ntimers (w : World) : nat := List.length (filter is_pause (events w)).

(** The response to a call, as [request] sees it: a success carrying the
    decoded body (a 204 is the empty object of the expected type), a
    response outside the success range, or a [fetch] that rejects. *)
Inductive Reply (T : Type) :=
| Ok (v : T)
| HttpError (status : Z) (text : jsstring)
| Rejected (reason : Error).
Arguments Ok {T} v.
Arguments HttpError {T} status text.
Arguments Rejected {T} reason.

(** [CheckSession] of [tools/checks.ts]. *)
Record CheckSession := mkSession {
  checkSessionId : jsstring;
  checkSessionLink : jsstring;
  checkId : jsstring;
  checkType : jsstring;
  name : jsstring;
  status : jsstring;               (* "PROGRESS" | "PASSED" | "FAILED" *)
  startedAt : jsstring;
  stoppedAt : option jsstring;     (* string | null *)
  timeElapsed : Z;
  runLocations : list jsstring;
  results : option (list jsval)    (* results?: unknown[] *)
}.

(** The body of the trigger response, [{ sessions: CheckSession[] }];
    [None] when the response has no [sessions] field. *)
Record TriggerResponse := mkTrigger {
  sessions : option (list CheckSession)
}.

(** The remote service and the scheduler.  The [n]-th remote call
    (counting from 0) is answered by the field of its endpoint at index
    [n] and takes [latency n] milliseconds; the [n]-th timer fires
    [overrun n] milliseconds late, never early. *)
Record Remote := mkRemote {
  check_reply : nat -> jsstring -> Reply jsobj;            (* GET /v1/checks/{id} *)
  put_reply : nat -> jsstring -> jsval -> Reply jsobj;     (* PUT /v1/checks/{id} *)
  trigger_reply : nat -> jsval -> Reply TriggerResponse;   (* POST /v1/check-sessions/trigger *)
  session_reply : nat -> jsstring -> Reply CheckSession;   (* GET /v1/check-sessions/{id} *)
  latency : nat -> N;
  overrun : nat -> N
}.

(** ** A state and exception monad for [async] code *)

Inductive Outcome (A : Type) :=
| Returned (a : A)
| Thrown (e : Error)
| OutOfFuel.
Arguments Returned {A} a.
Arguments Thrown {A} e.
Arguments OutOfFuel {A}.

Definition M (A : Type) := World -> Outcome A * World.

Definition ret {A} (a : A) : M A := fun w => (Returned a, w).

Definition bind {A B} (m : M A) (f : A -> M B) : M B :=
  fun w =>
    match m w with
    | (Returned a, w') => f a w'
    | (Thrown e, w') => (Thrown e, w')
    | (OutOfFuel, w') => (OutOfFuel, w')
    end.

Notation "x <- m ;; k" := (bind m (fun x => k))
  (at level 61, m at next level, right associativity).
Notation "m ;;; k" := (bind m (fun _ => k))
  (at level 61, right associativity).

(** [Date.now()]. *)
Definition date_now : M Z := fun w => (Returned (clock w), w).

Section Boundary.

Variable R : Remote.

(** The world once a timer of [ms] milliseconds, armed now, has fired. *)
Definition after_pause (w : World) (ms : Z) : World :=
  {| clock := clock w + ms + Z.of_N (overrun R (ntimers w));
     events := events w ++ [Paused (clock w) ms] |}.

(** The world once the call [c], issued now, has been answered. *)
Definition after_call (w : World) (c : Call) : World :=
  {| clock := clock w + Z.of_N (latency R (ncalls w));
     events := events w ++ [Called (clock w) c] |}.

(** [await new Promise((r) => setTimeout(r, ms))]. *)
Definition sleep (ms : Z) : M unit :=
  fun w => (Returned tt, after_pause w ms).

(** [body !== undefined ? JSON.stringify(body) : undefined]. *)
Definition wire_body (body : jsval) : option jsval :=
  if is_undefined body then None else Some (serialize body).

(** [request] of [client.ts].  [reply] is the endpoint's answer to this
    call, chosen by the caller's type argument. *)
Definition request {T} (reply : nat -> Reply T)
    (method : Method) (path : jsstring) (body : jsval) : M T :=
  fun w =>
    let w' := after_call w (mkCall method path (wire_body body)) in
    match reply (ncalls w) with
    | Ok v => (Returned v, w')
    | HttpError st text =>
        (Thrown (u16 "Checkly API " ++ method_name method ++ u16 " " ++ path
                 ++ u16 " " ++ right_arrow ++ u16 " " ++ decimal st
                 ++ u16 ": " ++ text), w')
    | Rejected reason => (Thrown reason, w')
    end.

End Boundary.

(** ** The workflows ([tools/checks.ts]) *)

Definition read_only_result : jsval :=
  JObj [(u16 "error",
         JStr (u16 "Server is in read-only mode. Set CHECKLY_READ_ONLY=false to enable writes."))].

Definition check_path (id : jsstring) : jsstring := u16 "/v1/checks/" ++ id.
Definition session_path (sessionId : jsstring) : jsstring :=
  u16 "/v1/check-sessions/" ++ sessionId.
Definition trigger_path : jsstring := u16 "/v1/check-sessions/trigger".

(** [{ target: { checkId: [id] } }]. *)
Definition trigger_body (id : jsstring) : jsval :=
  JObj [(u16 "target", JObj [(u16 "checkId", JArr [JStr id])])].

(** The value shown in a diff entry: a string of more than 120 code units
    is cut to its first 120 followed by an ellipsis. *)
Definition preview (v : jsval) : jsval :=
  match v with
  | JStr s =>
      if (120 <? List.length s)%nat then JStr (slice0 120 s ++ ellipsis) else v
  | _ => v
  end.

(** The body of [for (const [k, v] of Object.entries(updates))]. *)
Definition diff_step (current : jsobj) (diff : jsobj) (kv : jsstring * jsval) : jsobj :=
  let (k, v) := kv in
  if negb (is_undefined v) && negb (strict_eq (get k current) v) then
    set k (JObj [(u16 "from", preview (get k current)); (u16 "to", preview v)]) diff
  else diff.

Definition build_diff (current updates : jsobj) : jsobj :=
  fold_left (diff_step current) (entries updates) [].

Definition no_changes_result : jsval :=
  JObj [(u16 "message", JStr (u16 "No changes detected."));
        (u16 "diff", JObj [])].

Definition dry_run_result (id : jsstring) (current diff : jsobj) : jsval :=
  JObj [(u16 "message",
         JStr (u16 "Dry run " ++ em_dash ++ u16 " pass confirm: true to apply."));
        (u16 "checkId", JStr id);
        (u16 "checkName", get (u16 "name") current);
        (u16 "diff", JObj diff)].

Definition updated_result (updated diff : jsobj) : jsval :=
  JObj [(u16 "message", JStr (u16 "Check updated successfully."));
        (u16 "checkId", get (u16 "id") updated);
        (u16 "checkName", get (u16 "name") updated);
        (u16 "diff", JObj diff);
        (u16 "updatedAt", get (u16 "updatedAt") updated)].

(** [{ ...current, ...updates }]. *)
Definition merge_payload (current updates : jsobj) : jsobj :=
  spread (spread [] current) updates.

Definition not_triggered_result (id : jsstring) : jsval :=
  JObj [(u16 "error",
         JStr (u16 "Check was not triggered. It may be deactivated or belong to an inactive check group."));
        (u16 "checkId", JStr id)].

Definition strings (l : list jsstring) : jsval := JArr (map JStr l).

Definition triggered_result (session : CheckSession) : jsval :=
  JObj [(u16 "message", JStr (u16 "Check triggered."));
        (u16 "checkId", JStr (checkId session));
        (u16 "checkName", JStr (name session));
        (u16 "sessionId", JStr (checkSessionId session));
        (u16 "status", JStr (status session));
        (u16 "runLocations", strings (runLocations session));
        (u16 "startedAt", JStr (startedAt session));
        (u16 "checkSessionLink", JStr (checkSessionLink session));
        (u16 "hint",
         JStr (u16 "Poll with get_session_status(sessionId) or wait and call get_check_results(checkId)."))].

Definition completed_result (polled : CheckSession) : jsval :=
  JObj [(u16 "message", JStr (u16 "Check completed: " ++ status polled));
        (u16 "checkId", JStr (checkId polled));
        (u16 "checkName", JStr (name polled));
        (u16 "sessionId", JStr (checkSessionId polled));
        (u16 "status", JStr (status polled));
        (u16 "runLocations", strings (runLocations polled));
        (u16 "startedAt", JStr (startedAt polled));
        (u16 "stoppedAt",
         match stoppedAt polled with Some t => JStr t | None => JNull end);
        (u16 "timeElapsedMs", JNum (timeElapsed polled));
        (u16 "checkSessionLink", JStr (checkSessionLink polled));
        (u16 "results",
         match results polled with Some rs => JArr rs | None => JArr [] end)].

Definition timeout_result (sessionId link : jsstring) : jsval :=
  JObj [(u16 "message", JStr (u16 "Timed out waiting for check to complete (120s)."));
        (u16 "sessionId", JStr sessionId);
        (u16 "checkSessionLink", JStr link);
        (u16 "hint",
         JStr (u16 "Check is still running. Use checkSessionLink to view in Checkly UI."))].

Definition PROGRESS : jsstring := u16 "PROGRESS".

(** The [updates] object literal of the [update_check] case of the
    dispatcher: its four properties are always present, [undefined] where
    the tool call gave no value. *)
Definition updates_of_args (args : jsobj) : jsobj :=
  [(u16 "script", get (u16 "script") args);
   (u16 "name", get (u16 "name") args);
   (u16 "activated", get (u16 "activated") args);
   (u16 "frequency", get (u16 "frequency") args)].

Section Workflows.

Variable R : Remote.

Definition updateCheck (config : ChecklyConfig) (id : jsstring)
    (updates : jsobj) (confirm : bool) : M jsval :=
  if readOnly config then ret read_only_result
  else
    current <- request R (fun n => check_reply R n (check_path id))
                 GET (check_path id) JUndefined ;;
    let diff := build_diff current updates in
    if (List.length (keys diff) =? 0)%nat then ret no_changes_result
    else if negb confirm then ret (dry_run_result id current diff)
    else
      let payload := merge_payload current updates in
      updated <- request R (fun n => put_reply R n (check_path id) (JObj payload))
                   PUT (check_path id) (JObj payload) ;;
      ret (updated_result updated diff).

(** [while (Date.now() < deadline) { ... }] followed by the statement after
    the loop.  [fuel] bounds the number of loop-head tests. *)
Fixpoint poll_loop (fuel : nat) (sessionId link : jsstring) (deadline : Z)
    : M jsval :=
  match fuel with
  | O => fun w => (OutOfFuel, w)
  | S fuel' =>
      now <- date_now ;;
      if now <? deadline then
        sleep R 3000 ;;;
        polled <- request R (fun n => session_reply R n (session_path sessionId))
                    GET (session_path sessionId) JUndefined ;;
        if negb (str_eqb (status polled) PROGRESS) then ret (completed_result polled)
        else poll_loop fuel' sessionId link deadline
      else ret (timeout_result sessionId link)
  end.

Definition runCheck (fuel : nat) (config : ChecklyConfig) (id : jsstring)
    (awaitResult : bool) : M jsval :=
  if readOnly config then ret read_only_result
  else
    response <- request R (fun n => trigger_reply R n (trigger_body id))
                  POST trigger_path (trigger_body id) ;;
    let sessions := match sessions response with Some l => l | None => [] end in
    match sessions with
    | [] => ret (not_triggered_result id)
    | session :: _ =>
        if negb awaitResult then ret (triggered_result session)
        else
          let sessionId := checkSessionId session in
          now <- date_now ;;
          let deadline := now + 120000 in
          poll_loop fuel sessionId (checkSessionLink session) deadline
    end.

(** ** The tool dispatcher ([index.ts])

    The [update_check] and [run_check] cases of the [CallToolRequestSchema]
    handler; [id] is [args!.id as string]. *)
Definition update_check_case (config : ChecklyConfig) (id : jsstring)
    (args : jsobj) : M jsval :=
  updateCheck config id (updates_of_args args)
    (to_boolean (get (u16 "confirm") args)).

Definition run_check_case (fuel : nat) (config : ChecklyConfig) (id : jsstring)
    (args : jsobj) : M jsval :=
  runCheck fuel config id (to_boolean (get (u16 "await_result") args)).

End Workflows.

(** ** Vocabulary for statements about the poll loop *)

Definition poll_call (sessionId : jsstring) : Call :=
  mkCall GET (session_path sessionId) None.

Definition trigger_call (id : jsstring) : Call :=
  mkCall POST trigger_path (Some (trigger_body id)).

Definition fetch_call (id : jsstring) : Call :=
  mkCall GET (check_path id) None.

(** The write of [updateCheck]: the payload as [request] serialises it. *)
Definition put_call (id : jsstring) (payload : jsobj) : Call :=
  mkCall PUT (check_path id) (Some (JObj (serialize_props payload))).

Section Pacing.

Variable R : Remote.

(** One turn of the loop body: the 3-second pause, then the poll. *)
Definition after_turn (sessionId : jsstring) (w : World) : World :=
  after_call R (after_pause R w 3000) (poll_call sessionId).

Fixpoint after_turns (sessionId : jsstring) (n : nat) (w : World) : World :=
  match n with
  | O => w
  | S n' => after_turns sessionId n' (after_turn sessionId w)
  end.

End Pacing.

(** The events of a poll loop: pause and poll alternate, every pause is of
    3000 ms and was armed before [deadline], and every poll is the call [c],
    issued no sooner than 3000 ms after its pause was armed. *)
Fixpoint polls_paced (deadline : Z) (c : Call) (evs : list Event) : Prop :=
  match evs with
  | [] => True
  | Paused t ms :: Called t' c' :: rest =>
      t < deadline /\ ms = 3000 /\ t + 3000 <= t' /\ c' = c
      /\ polls_paced deadline c rest
  | _ => False
  end.

(** The number of remote calls among [evs]. *)
Definition calls_in (evs : list Event) : nat := List.length (filter is_call evs).

(** No [GET] among [evs] was issued after [deadline]. *)
Definition no_poll_after (deadline : Z) (evs : list Event) : Prop :=
  forall t c, In (Called t c) evs -> c_method c = GET -> t <= deadline.



(** ** Sample data *)

Module Sample.

Definition config_rw : ChecklyConfig :=
  {| apiKey := u16 "cu_key"; accountId := u16 "acct"; readOnly := false |}.

Definition config_ro : ChecklyConfig :=
  {| apiKey := u16 "cu_key"; accountId := u16 "acct"; readOnly := true |}.

Definition start : World := {| clock := 0; events := [] |}.

(** A check as the service returns it, with two fields that the [Check]
    interface does not declare. *)
Definition current : jsobj :=
  [(u16 "id", JStr (u16 "X"));
   (u16 "name", JStr (u16 "Home page"));
   (u16 "checkType", JStr (u16 "BROWSER"));
   (u16 "activated", JBool true);
   (u16 "frequency", JNum 5);
   (u16 "script", JStr (u16 "await page.goto(url)"));
   (u16 "locations", JArr [JStr (u16 "eu-west-1")]);
   (u16 "alertSettings", JObj [(u16 "escalationType", JStr (u16 "RUN_BASED"))]);
   (u16 "retryStrategy", JNull)].

Definition session (sid st : jsstring) : CheckSession :=
  {| checkSessionId := sid;
     checkSessionLink := u16 "https://app.checklyhq.com/s/" ++ sid;
     checkId := u16 "X";
     checkType := u16 "BROWSER";
     name := u16 "Home page";
     status := st;
     startedAt := u16 "2024-05-01T10:00:00.000Z";
     stoppedAt := None;
     timeElapsed := 0;
     runLocations := [u16 "eu-west-1"];
     results := None |}.

(** A service that answers every call after [lat] ms, returns [current]
    for a check and echoes a written one, answers a trigger with [trig],
    and reports the polled session in progress until the call of index
    [flip], from which on it has [final] status. *)
Definition remote (trig : TriggerResponse) (flip : nat) (final : jsstring)
    (lat : N) : Remote :=
  {| check_reply := fun _ _ => Ok current;
     put_reply := fun _ _ body =>
                    match body with JObj o => Ok o | _ => Ok [] end;
     trigger_reply := fun _ _ => Ok trig;
     session_reply := fun n _ =>
                        Ok (session (u16 "s1")
                              (if (n <? flip)%nat then PROGRESS else final));
     latency := fun _ => lat;
     overrun := fun _ => 0%N |}.

Definition one_session : TriggerResponse :=
  {| sessions := Some [session (u16 "s1") PROGRESS] |}.

Definition two_sessions : TriggerResponse :=
  {| sessions := Some [session (u16 "s1") PROGRESS; session (u16 "s2") PROGRESS] |}.

Definition env (ro : option jsstring) : Env :=
  fun v =>
    if str_eqb v CHECKLY_API_KEY then Some (u16 "cu_key")
    else if str_eqb v CHECKLY_ACCOUNT_ID then Some (u16 "acct")
    else if str_eqb v CHECKLY_READ_ONLY then ro
    else None.

(** A script of 500 code units. *)
Definition long_script : jsstring := repeat 120%N 500.

(** Arguments of [update_check] tool calls. *)
Definition args_same : jsobj :=
  [(u16 "id", JStr (u16 "X"));
   (u16 "name", JStr (u16 "Home page"));
   (u16 "frequency", JNum 5);
   (u16 "confirm", JBool true)].

Definition args_frequency (confirm : bool) : jsobj :=
  [(u16 "id", JStr (u16 "X"));
   (u16 "frequency", JNum 10);
   (u16 "confirm", JBool confirm)].

Definition args_script : jsobj :=
  [(u16 "id", JStr (u16 "X"));
   (u16 "script", JStr long_script);
   (u16 "confirm", JBool true)].

Definition service : Remote := remote one_session 0 (u16 "PASSED") 100.

(** A service whose session never leaves PROGRESS, answering after
    [lat] ms. *)
Definition stuck (lat : N) : Remote := remote one_session 0 PROGRESS lat.

(** A service that answers a trigger with [trig] and whose session is
    found PASSED from the third poll on (the trigger is call 0). *)
Definition passing (trig : TriggerResponse) : Remote :=
  remote trig 3 (u16 "PASSED") 100.

End Sample.

(** ** Values that come from JSON *)

(** A value with no [undefined] in it, as [res.json()] produces. *)
Fixpoint json_value (v : jsval) : bool :=
  match v with
  | JUndefined => false
  | JArr l => forallb json_value l
  | JObj o => forallb (fun '(_, x) => json_value x) o
  | _ => true
  end.

(** ** [URLSearchParams]

    [toString] is the application/x-www-form-urlencoded serialiser: names
    and values are converted to scalar values (a lone surrogate becomes
    U+FFFD), encoded in UTF-8, and each byte is written as itself when it
    is an ASCII letter or digit or one of [*-._], as [+] when it is a
    space, and as [%XX] otherwise. *)

Definition is_high_surrogate (u : N) : bool := ((55296 <=? u) && (u <=? 56319))%N.
Definition is_low_surrogate (u : N) : bool := ((56320 <=? u) && (u <=? 57343))%N.

Fixpoint code_points (s : jsstring) : list N :=
  match s with
  | [] => []
  | u :: r =>
      if is_high_surrogate u then
        match r with
        | l :: r' =>
            if is_low_surrogate l
            then (65536 + (u - 55296) * 1024 + (l - 56320))%N :: code_points r'
            else 65533%N :: code_points r
        | [] => [65533%N]
        end
      else if is_low_surrogate u then 65533%N :: code_points r
      else u :: code_points r
  end.

Definition utf8 (c : N) : list N :=
  (if c <? 128 then [c]
   else if c <? 2048 then [192 + c / 64; 128 + c mod 64]
   else if c <? 65536 then
     [224 + c / 4096; 128 + (c / 64) mod 64; 128 + c mod 64]
   else
     [240 + c / 262144; 128 + (c / 4096) mod 64; 128 + (c / 64) mod 64;
      128 + c mod 64])%N.

(** Letters, digits and [*-._]. *)
Definition form_safe (b : N) : bool :=
  ((b =? 42) || (b =? 45) || (b =? 46) || (b =? 95)
   || ((48 <=? b) && (b <=? 57))
   || ((65 <=? b) && (b <=? 90))
   || ((97 <=? b) && (b <=? 122)))%N.

Definition hex_digit (d : N) : N := (if d <? 10 then 48 + d else 55 + d)%N.

Definition form_byte (b : N) : jsstring :=
  if (b =? 32)%N then [43%N]
  else if form_safe b then [b]
  else [37%N; hex_digit (b / 16); hex_digit (b mod 16)].

Definition form_urlencode (s : jsstring) : jsstring :=
  flat_map form_byte (flat_map utf8 (code_points s)).

Definition URLSearchParams := list (jsstring * jsstring).

(** [qs.set(name, value)]: the first pair of that name takes the value and
    the later ones are removed; without one, the pair is added last. *)
Fixpoint qs_set (name value : jsstring) (qs : URLSearchParams) : URLSearchParams :=
  match qs with
  | [] => [(name, value)]
  | (n, v) :: r =>
      if str_eqb n name
      then (n, value) :: filter (fun p => negb (str_eqb (fst p) name)) r
      else (n, v) :: qs_set name value r
  end.

Fixpoint qs_to_string (qs : URLSearchParams) : jsstring :=
  match qs with
  | [] => []
  | [(n, v)] => form_urlencode n ++ u16 "=" ++ form_urlencode v
  | (n, v) :: r =>
      form_urlencode n ++ u16 "=" ++ form_urlencode v ++ u16 "&" ++ qs_to_string r
  end.

(** ** The read operations ([tools/checks.ts]) *)

(** [if (s)] for [s : string | undefined]. *)
Definition truthy (s : option jsstring) : bool :=
  match s with
  | Some (_ :: _) => true
  | _ => false
  end.

(** The [params] of [listChecks]. *)
Record ListParams := mkListParams {
  type : option jsstring;
  groupId : option jsstring;
  limit : option Z
}.

(** [String(n)] and [`${n}`] for a number.  An integer of magnitude at
    most 2^53 is written with all its digits.  Above that the platform
    shortens the digits and, from 10^21 on, writes an exponent; that
    rendering is not computed here and is taken as the parameter
    [beyond]. *)
Definition number_string (beyond : Z -> jsstring) (z : Z) : jsstring :=
  if Z.abs z <=? 9007199254740992 then decimal z else beyond z.

Definition list_query (beyond : Z -> jsstring) (params : ListParams)
    : URLSearchParams :=
  let qs : URLSearchParams := [] in
  let qs :=
    match groupId params with
    | Some g => if truthy (groupId params) then qs_set (u16 "groupId") g qs else qs
    | None => qs
    end in
  qs_set (u16 "limit")
    (number_string beyond (match limit params with Some n => n | None => 100 end))
    qs.

Definition list_path (beyond : Z -> jsstring) (params : ListParams) : jsstring :=
  u16 "/v1/checks?" ++ qs_to_string (list_query beyond params).

(** The object [listChecks] returns for a check. *)
Definition check_summary (c : jsobj) : jsval :=
  JObj [(u16 "id", get (u16 "id") c);
        (u16 "name", get (u16 "name") c);
        (u16 "type", get (u16 "checkType") c);
        (u16 "activated", get (u16 "activated") c);
        (u16 "frequency", get (u16 "frequency") c);
        (u16 "locations", get (u16 "locations") c);
        (u16 "tags", nullish (get (u16 "tags") c) (JArr []));
        (u16 "groupId", nullish (get (u16 "groupId") c) JNull);
        (u16 "updatedAt", get (u16 "updatedAt") c)].

(** [params.type ? checks.filter((c) => c.checkType === params.type) : checks]. *)
Definition filter_by_type (t : option jsstring) (checks : list jsobj) : list jsobj :=
  match t with
  | Some ty =>
      if truthy t
      then filter (fun c => strict_eq (get (u16 "checkType") c) (JStr ty)) checks
      else checks
  | None => checks
  end.

(** [CheckResult] of [tools/checks.ts]. *)
Module CheckResult.
Record t := mk {
  id : jsstring;
  checkId : jsstring;
  hasFailures : bool;
  hasErrors : bool;
  isDegraded : bool;
  overMaxResponseTime : bool;
  runLocation : jsstring;
  startedAt : jsstring;
  stoppedAt : jsstring;
  responseTime : Z
}.
End CheckResult.

(** The object [getCheckResults] returns for a result. *)
Definition result_summary (r : CheckResult.t) : jsval :=
  JObj [(u16 "id", JStr (CheckResult.id r));
        (u16 "runLocation", JStr (CheckResult.runLocation r));
        (u16 "startedAt", JStr (CheckResult.startedAt r));
        (u16 "stoppedAt", JStr (CheckResult.stoppedAt r));
        (u16 "responseTimeMs", JNum (CheckResult.responseTime r));
        (u16 "passed",
         JBool (negb (CheckResult.hasFailures r) && negb (CheckResult.hasErrors r)));
        (u16 "degraded", JBool (CheckResult.isDegraded r));
        (u16 "overMaxResponseTime", JBool (CheckResult.overMaxResponseTime r));
        (u16 "hasFailures", JBool (CheckResult.hasFailures r));
        (u16 "hasErrors", JBool (CheckResult.hasErrors r))].

(** [`/v1/check-results/${id}?limit=${Math.min(limit, 100)}`]. *)
Definition results_path (beyond : Z -> jsstring) (id : jsstring) (limit : Z)
    : jsstring :=
  u16 "/v1/check-results/" ++ id ++ u16 "?limit="
  ++ number_string beyond (Z.min limit 100).

(** The two list endpoints, answered like the endpoints of [Remote]. *)
Record Listings := mkListings {
  list_reply : nat -> jsstring -> Reply (list jsobj);               (* GET /v1/checks?... *)
  results_reply : nat -> jsstring -> Reply (list CheckResult.t)     (* GET /v1/check-results/{id}?... *)
}.

(** The outcome of a tool call as the dispatcher reports it: the JSON
    value that the text [JSON.stringify(result, null, 2)] denotes, or the
    text of an [isError] response. *)
Inductive ToolResponse :=
| Success (json : jsval)
| Failure (text : jsstring).

Section ReadOperations.

Variable R : Remote.
Variable L : Listings.
Variable beyond : Z -> jsstring.

Definition listChecks (config : ChecklyConfig) (params : ListParams) : M jsval :=
  checks <- request R (fun n => list_reply L n (list_path beyond params))
              GET (list_path beyond params) JUndefined ;;
  let filtered := filter_by_type (type params) checks in
  ret (JArr (map check_summary filtered)).

Definition getCheck (config : ChecklyConfig) (id : jsstring) : M jsobj :=
  request R (fun n => check_reply R n (check_path id)) GET (check_path id) JUndefined.

(** [limit] is [None] when the caller leaves the parameter out. *)
Definition getCheckResults (config : ChecklyConfig) (id : jsstring)
    (limit : option Z) : M jsval :=
  let limit := match limit with Some n => n | None => 5 end in
  results <- request R (fun n => results_reply L n (results_path beyond id limit))
               GET (results_path beyond id limit) JUndefined ;;
  ret (JArr (map result_summary results)).

(** The [try]/[catch] of the [CallToolRequestSchema] handler around the
    case [m]: a result is reported as its JSON text, a thrown error as an
    [isError] response reading [Error: ] and its message. *)
Definition respond (m : M jsval) : M ToolResponse :=
  fun w =>
    match m w with
    | (Returned result, w') => (Returned (Success (serialize result)), w')
    | (Thrown message, w') => (Returned (Failure (u16 "Error: " ++ message)), w')
    | (OutOfFuel, w') => (OutOfFuel, w')
    end.

End ReadOperations.

(** ** Sample data for the read operations and the failures *)

Module Cases.

(** A service like [Sample.remote] whose endpoints fail with the status
    [st] and the body [text] from the call of index [from] on. *)
Definition failing (R : Remote) (from : nat) (st : Z) (text : jsstring) : Remote :=
  {| check_reply := fun n p => if (n <? from)%nat then check_reply R n p
                               else HttpError st text;
     put_reply := fun n p b => if (n <? from)%nat then put_reply R n p b
                               else HttpError st text;
     trigger_reply := fun n b => if (n <? from)%nat then trigger_reply R n b
                                 else HttpError st text;
     session_reply := fun n p => if (n <? from)%nat then session_reply R n p
                                 else HttpError st text;
     latency := latency R;
     overrun := overrun R |}.

Definition not_found : jsstring := u16 "Not Found".

(** A stand-in for the platform's rendering of numbers above 2^53, which
    no sample call reaches. *)
Definition beyond : Z -> jsstring := fun _ => [].

Definition api_check : jsobj :=
  [(u16 "id", JStr (u16 "A"));
   (u16 "name", JStr (u16 "Health"));
   (u16 "checkType", JStr (u16 "API"));
   (u16 "activated", JBool true);
   (u16 "frequency", JNum 10);
   (u16 "locations", JArr [JStr (u16 "us-east-1")]);
   (u16 "tags", JArr [JStr (u16 "prod")]);
   (u16 "groupId", JNum 7)].

Definition one_result (failed : bool) : CheckResult.t :=
  {| CheckResult.id := u16 "r1";
     CheckResult.checkId := u16 "X";
     CheckResult.hasFailures := failed;
     CheckResult.hasErrors := false;
     CheckResult.isDegraded := true;
     CheckResult.overMaxResponseTime := false;
     CheckResult.runLocation := u16 "eu-west-1";
     CheckResult.startedAt := u16 "2024-05-01T10:00:00.000Z";
     CheckResult.stoppedAt := u16 "2024-05-01T10:00:02.000Z";
     CheckResult.responseTime := 2000 |}.

Definition listings : Listings :=
  {| list_reply := fun _ _ => Ok [Sample.current; api_check];
     results_reply := fun _ _ => Ok [one_result false; one_result true] |}.

End Cases.

(** * Properties *)

(** ** Strings and objects *)

Lemma str_eqb_refl (a : jsstring) : str_eqb a a = true.
Proof.
  induction a as [|x a IH]; simpl; [reflexivity|].
  now rewrite N.eqb_refl, IH.
Qed.

Lemma str_eqb_eq (a b : jsstring) : str_eqb a b = true <-> a = b.
Proof.
  split.
  - revert b; induction a as [|x a IH]; intros [|y b] H; simpl in H;
      try discriminate; [reflexivity|].
    apply andb_true_iff in H as [Hx Hr].
    apply N.eqb_eq in Hx. f_equal; auto.
  - intros ->. apply str_eqb_refl.
Qed.

Lemma str_eqb_neq (a b : jsstring) : str_eqb a b = false <-> a <> b.
Proof.
  rewrite <- str_eqb_eq. destruct (str_eqb a b); split; congruence.
Qed.

Lemma get_set_same (k : jsstring) (v : jsval) (o : jsobj) :
  get k (set k v o) = v.
Proof.
  induction o as [|[k' v'] o IH]; simpl.
  - now rewrite str_eqb_refl.
  - destruct (str_eqb k k') eqn:E; simpl; rewrite E; auto.
Qed.

Lemma get_set_other (k k' : jsstring) (v : jsval) (o : jsobj) :
  k <> k' -> get k (set k' v o) = get k o.
Proof.
  intros Hne. induction o as [|[k0 v0] o IH]; simpl.
  - apply str_eqb_neq in Hne. now rewrite Hne.
  - destruct (str_eqb k' k0) eqn:E; simpl.
    + apply str_eqb_eq in E. subst k0.
      apply str_eqb_neq in Hne. now rewrite Hne.
    + destruct (str_eqb k k0); auto.
Qed.

Lemma get_spread_other (k : jsstring) (source target : jsobj) :
  ~ In k (keys source) -> get k (spread target source) = get k target.
Proof.
  revert target. induction source as [|[k' v'] source IH]; intros target Hn; simpl.
  - reflexivity.
  - simpl in Hn. rewrite IH by tauto.
    apply get_set_other. intros ->. tauto.
Qed.

Lemma get_spread_in (k : jsstring) (v : jsval) (source target : jsobj) :
  wf_obj source -> In (k, v) source -> get k (spread target source) = v.
Proof.
  unfold wf_obj. revert target.
  induction source as [|[k' v'] source IH]; intros target Hnd Hin; simpl.
  - contradiction.
  - simpl in Hnd. inversion Hnd as [|? ? Hnotin Hnd']; subst.
    destruct Hin as [Heq|Hin].
    + inversion Heq; subst. rewrite get_spread_other by assumption.
      apply get_set_same.
    + now apply IH.
Qed.

Lemma has_in (k : jsstring) (o : jsobj) : has k o = true -> In k (keys o).
Proof.
  induction o as [|[k' v'] o IH]; simpl; [discriminate|].
  intros H. apply orb_true_iff in H as [E|H].
  - left. symmetry. now apply str_eqb_eq.
  - right. auto.
Qed.

Lemma get_spread_onto (k : jsstring) (o target : jsobj) :
  wf_obj o ->
  get k (spread target o) = if has k o then get k o else get k target.
Proof.
  unfold wf_obj. revert target.
  induction o as [|[k' v'] o IH]; intros target Hnd; simpl; [reflexivity|].
  simpl in Hnd. inversion Hnd as [|? ? Hnotin Hnd']; subst.
  rewrite IH by assumption.
  destruct (str_eqb k k') eqn:E; simpl.
  - apply str_eqb_eq in E; subst k'.
    destruct (has k o) eqn:Hh.
    + apply has_in in Hh. contradiction.
    + apply get_set_same.
  - destruct (has k o); [reflexivity|].
    apply get_set_other. now apply str_eqb_neq.
Qed.

Lemma get_absent (k : jsstring) (o : jsobj) : has k o = false -> get k o = JUndefined.
Proof.
  induction o as [|[k' v'] o IH]; simpl; [reflexivity|].
  intros H. apply orb_false_iff in H as [E H]. rewrite E. auto.
Qed.

(** The payload keeps every property of the fetched check whose name is
    not a property name of [updates]; this covers the fields the [Check]
    interface does not declare. *)
Lemma merge_payload_keeps_others (current updates : jsobj) (k : jsstring) :
  wf_obj current -> ~ In k (keys updates) ->
  get k (merge_payload current updates) = get k current.
Proof.
  intros Hwf Hk. unfold merge_payload.
  rewrite get_spread_other by assumption.
  rewrite get_spread_onto by assumption. simpl.
  destruct (has k current) eqn:Hh; [reflexivity|].
  symmetry. now apply get_absent.
Qed.

(** A requested property lands in the payload with the requested value. *)
Lemma merge_payload_takes_update (current updates : jsobj) (k : jsstring) (v : jsval) :
  wf_obj updates -> In (k, v) updates ->
  get k (merge_payload current updates) = v.
Proof.
  intros Hwf Hin. unfold merge_payload. now apply get_spread_in.
Qed.

(** ** The read-only gate *)

(** C9: once the two required variables are set, [getConfig] returns a
    configuration whose read-only flag is off exactly when
    CHECKLY_READ_ONLY is the string "false"; for every other value, and
    when the variable is not set, the flag is on. *)
Theorem getConfig_gate_off_only_for_false (env : Env) (c1 c2 : N) (k a : jsstring) :
  env CHECKLY_API_KEY = Some (c1 :: k) ->
  env CHECKLY_ACCOUNT_ID = Some (c2 :: a) ->
  exists cfg,
    getConfig env = inr cfg
    /\ (readOnly cfg = false <-> env CHECKLY_READ_ONLY = Some (u16 "false"))
    /\ (readOnly cfg = true <-> env CHECKLY_READ_ONLY <> Some (u16 "false")).
Proof.
  intros Hk Ha. unfold getConfig. rewrite Hk, Ha.
  eexists. split; [reflexivity|]. simpl readOnly.
  destruct (env CHECKLY_READ_ONLY) as [x|]; simpl.
  - destruct (str_eqb x (u16 "false")) eqn:E; simpl.
    + apply str_eqb_eq in E. subst x. split; split; congruence.
    + apply str_eqb_neq in E. split; split; congruence.
  - split; split; congruence.
Qed.

Lemma getConfig_gate_off_only_for_false_witness :
  exists cfg,
    getConfig (Sample.env (Some (u16 "False"))) = inr cfg
    /\ (readOnly cfg = false
        <-> Sample.env (Some (u16 "False")) CHECKLY_READ_ONLY = Some (u16 "false"))
    /\ (readOnly cfg = true
        <-> Sample.env (Some (u16 "False")) CHECKLY_READ_ONLY <> Some (u16 "false")).
Proof.
  apply (getConfig_gate_off_only_for_false
           (Sample.env (Some (u16 "False"))) 99%N 97%N (u16 "u_key") (u16 "cct"));
    reflexivity.
Defined.

(** C3: with the read-only flag on, [updateCheck] and [runCheck] return the
    denied result, an object whose [error] property is a message, and
    leave the world as it was: nothing is fetched, written or triggered,
    and no timer is armed. *)
Theorem read_only_denies_without_remote_calls
    (R : Remote) (config : ChecklyConfig) (id : jsstring) (updates : jsobj)
    (confirm awaitResult : bool) (fuel : nat) (w : World) :
  readOnly config = true ->
  updateCheck R config id updates confirm w = (Returned read_only_result, w)
  /\ runCheck R fuel config id awaitResult w = (Returned read_only_result, w)
  /\ exists msg, read_only_result = JObj [(u16 "error", JStr msg)].
Proof.
  intros Hro. unfold updateCheck, runCheck. rewrite Hro.
  repeat split. eexists. reflexivity.
Qed.

Lemma read_only_denies_without_remote_calls_witness :
  updateCheck (Sample.remote Sample.one_session 0 (u16 "PASSED") 100) Sample.config_ro
    (u16 "X") [(u16 "frequency", JNum 10)] true Sample.start
  = (Returned read_only_result, Sample.start)
  /\ runCheck (Sample.remote Sample.one_session 0 (u16 "PASSED") 100) 41 Sample.config_ro
       (u16 "X") true Sample.start
     = (Returned read_only_result, Sample.start)
  /\ exists msg, read_only_result = JObj [(u16 "error", JStr msg)].
Proof.
  apply (read_only_denies_without_remote_calls
           (Sample.remote Sample.one_session 0 (u16 "PASSED") 100) Sample.config_ro
           (u16 "X") [(u16 "frequency", JNum 10)] true true 41 Sample.start).
  reflexivity.
Defined.

(** ** Triggering *)

(** C8: when the trigger response has no [sessions] field or an empty
    list, [runCheck] returns (does not throw) the not-triggered result,
    which carries an [error] message and the check id, whatever
    [awaitResult] is; the trigger is the only event: no poll is issued and
    no timer is armed. *)
Theorem runCheck_no_sessions_not_triggered
    (R : Remote) (config : ChecklyConfig) (id : jsstring) (awaitResult : bool)
    (fuel : nat) (w : World) (response : TriggerResponse) :
  readOnly config = false ->
  trigger_reply R (ncalls w) (trigger_body id) = Ok response ->
  sessions response = None \/ sessions response = Some [] ->
  runCheck R fuel config id awaitResult w
  = (Returned (not_triggered_result id), after_call R w (trigger_call id))
  /\ events (after_call R w (trigger_call id))
     = events w ++ [Called (clock w) (trigger_call id)]
  /\ (exists msg, not_triggered_result id
                  = JObj [(u16 "error", JStr msg); (u16 "checkId", JStr id)]).
Proof.
  intros Hro Hrep Hs. unfold runCheck, bind, request. rewrite Hro, Hrep.
  split; [|split; [reflexivity|eexists; reflexivity]].
  destruct Hs as [-> | ->]; reflexivity.
Qed.

Lemma runCheck_no_sessions_not_triggered_witness :
  runCheck (Sample.remote {| sessions := None |} 0 (u16 "PASSED") 100) 41
    Sample.config_rw (u16 "X") true Sample.start
  = (Returned (not_triggered_result (u16 "X")),
     after_call (Sample.remote {| sessions := None |} 0 (u16 "PASSED") 100)
       Sample.start (trigger_call (u16 "X")))
  /\ events (after_call (Sample.remote {| sessions := None |} 0 (u16 "PASSED") 100)
               Sample.start (trigger_call (u16 "X")))
     = events Sample.start ++ [Called (clock Sample.start) (trigger_call (u16 "X"))]
  /\ (exists msg, not_triggered_result (u16 "X")
                  = JObj [(u16 "error", JStr msg); (u16 "checkId", JStr (u16 "X"))]).
Proof.
  apply (runCheck_no_sessions_not_triggered
           (Sample.remote {| sessions := None |} 0 (u16 "PASSED") 100)
           Sample.config_rw (u16 "X") true 41 Sample.start {| sessions := None |});
    [reflexivity | reflexivity | left; reflexivity].
Defined.

(** ** Serialisation *)

Lemma serialize_obj (o : jsobj) : serialize (JObj o) = JObj (serialize_props o).
Proof. reflexivity. Qed.

Lemma serialize_props_cons (k : jsstring) (x : jsval) (r : jsobj) :
  serialize_props ((k, x) :: r)
  = if is_undefined x then serialize_props r
    else (k, serialize x) :: serialize_props r.
Proof. destruct x; reflexivity. Qed.

(** A property that has a value is written, serialised, under its name. *)
Lemma get_serialize_props (k : jsstring) (o : jsobj) :
  get k o <> JUndefined ->
  get k (serialize_props o) = serialize (get k o).
Proof.
  induction o as [|[k' x] r IH]; cbn [get]; [congruence|].
  rewrite serialize_props_cons.
  destruct (str_eqb k k') eqn:E; intros Hx.
  - assert (Hu : is_undefined x = false) by (destruct x; simpl; congruence).
    rewrite Hu. cbn [get]. now rewrite E.
  - destruct (is_undefined x); [auto|].
    cbn [get]. rewrite E. auto.
Qed.

(** ** The diff *)

Lemma preview_string (s : jsstring) :
  preview (JStr s)
  = JStr (if (120 <? List.length s)%nat then firstn 120 s ++ ellipsis else s).
Proof. unfold preview, slice0. now destruct (120 <? List.length s)%nat. Qed.

Lemma diff_step_unchanged (current diff : jsobj) (k : jsstring) (v : jsval) :
  (v <> JUndefined -> strict_eq (get k current) v = true) ->
  diff_step current diff (k, v) = diff.
Proof.
  intros H. unfold diff_step.
  destruct v; simpl; try reflexivity; rewrite H by discriminate; reflexivity.
Qed.

Lemma build_diff_all_equal (current : jsobj) (l : list (jsstring * jsval)) (d : jsobj) :
  (forall k v, In (k, v) l -> v <> JUndefined -> strict_eq (get k current) v = true) ->
  fold_left (diff_step current) l d = d.
Proof.
  revert d. induction l as [|[k v] l IH]; intros d H; cbn [fold_left]; [reflexivity|].
  rewrite diff_step_unchanged by (apply H; now left).
  apply IH. intros k' v' Hin. apply H. now right.
Qed.

Lemma get_diff_step_other (current diff : jsobj) (k k' : jsstring) (v : jsval) :
  k <> k' -> get k (diff_step current diff (k', v)) = get k diff.
Proof.
  intros Hne. unfold diff_step.
  destruct (negb (is_undefined v) && negb (strict_eq (get k' current) v));
    [now apply get_set_other | reflexivity].
Qed.

Lemma get_fold_diff_other (current : jsobj) (k : jsstring)
    (l : list (jsstring * jsval)) (d : jsobj) :
  ~ In k (keys l) -> get k (fold_left (diff_step current) l d) = get k d.
Proof.
  revert d. induction l as [|[k' v'] l IH]; intros d Hn; cbn [fold_left]; [reflexivity|].
  simpl in Hn. rewrite IH by tauto.
  apply get_diff_step_other. intros ->. tauto.
Qed.

(** The entry of a changed field: the previews of the current and of the
    proposed value. *)
Lemma get_fold_diff_changed (current : jsobj) (k : jsstring) (v : jsval)
    (l : list (jsstring * jsval)) (d : jsobj) :
  NoDup (keys l) -> In (k, v) l ->
  v <> JUndefined -> strict_eq (get k current) v = false ->
  get k (fold_left (diff_step current) l d)
  = JObj [(u16 "from", preview (get k current)); (u16 "to", preview v)].
Proof.
  revert d. induction l as [|[k' v'] l IH]; intros d Hnd Hin Hv Hne; cbn [fold_left].
  - contradiction.
  - simpl in Hnd. inversion Hnd as [|? ? Hnotin Hnd']; subst.
    destruct Hin as [Heq|Hin].
    + inversion Heq; subst. rewrite get_fold_diff_other by assumption.
      unfold diff_step. rewrite Hne.
      destruct v; try congruence; simpl; apply get_set_same.
    + now apply IH.
Qed.

Lemma diff_nonempty_length (diff : jsobj) :
  diff <> [] -> (List.length (keys diff) =? 0)%nat = false.
Proof. destruct diff; [congruence|reflexivity]. Qed.

(** ** The guarded update *)

Lemma updateCheck_fetches (R : Remote) (config : ChecklyConfig) (id : jsstring)
    (updates : jsobj) (confirm : bool) (w : World) (current : jsobj) :
  readOnly config = false ->
  check_reply R (ncalls w) (check_path id) = Ok current ->
  updateCheck R config id updates confirm w
  = let w1 := after_call R w (fetch_call id) in
    let diff := build_diff current updates in
    if (List.length (keys diff) =? 0)%nat then (Returned no_changes_result, w1)
    else if negb confirm then (Returned (dry_run_result id current diff), w1)
    else
      bind (request R (fun n => put_reply R n (check_path id)
                                  (JObj (merge_payload current updates)))
              PUT (check_path id) (JObj (merge_payload current updates)))
           (fun updated => ret (updated_result updated diff)) w1.
Proof.
  intros Hro Hrep. unfold updateCheck. rewrite Hro.
  unfold bind at 1. unfold request at 1. rewrite Hrep. cbv zeta.
  change (wire_body JUndefined) with (@None jsval).
  fold (fetch_call id).
  destruct (List.length (keys (build_diff current updates)) =? 0)%nat; [reflexivity|].
  destruct confirm; reflexivity.
Qed.

(** C2: when every requested field (every property of [updates] whose value
    is not [undefined]) is strictly equal to the fetched check's field, the
    diff is empty and [updateCheck] returns the no-changes result with an
    empty diff, for [confirm] true and false alike; the fetch is the only
    remote call, so nothing is written. *)
Theorem updateCheck_equal_fields_no_changes
    (R : Remote) (config : ChecklyConfig) (id : jsstring) (updates : jsobj)
    (w : World) (current : jsobj) :
  readOnly config = false ->
  check_reply R (ncalls w) (check_path id) = Ok current ->
  (forall k v, In (k, v) (entries updates) -> v <> JUndefined ->
               strict_eq (get k current) v = true) ->
  build_diff current updates = []
  /\ (forall confirm,
        updateCheck R config id updates confirm w
        = (Returned no_changes_result, after_call R w (fetch_call id)))
  /\ events (after_call R w (fetch_call id))
     = events w ++ [Called (clock w) (fetch_call id)]
  /\ (exists msg, no_changes_result
                  = JObj [(u16 "message", JStr msg); (u16 "diff", JObj [])]).
Proof.
  intros Hro Hrep Heq.
  assert (Hd : build_diff current updates = []).
  { unfold build_diff. now apply build_diff_all_equal. }
  split; [exact Hd|]. split; [|split; [reflexivity|eexists; reflexivity]].
  intros confirm. rewrite (updateCheck_fetches R config id updates confirm w current)
    by assumption.
  cbv zeta. rewrite Hd. reflexivity.
Qed.

Lemma updateCheck_equal_fields_no_changes_witness :
  build_diff Sample.current (updates_of_args Sample.args_same) = []
  /\ (forall confirm,
        updateCheck Sample.service Sample.config_rw (u16 "X")
          (updates_of_args Sample.args_same) confirm Sample.start
        = (Returned no_changes_result,
           after_call Sample.service Sample.start (fetch_call (u16 "X"))))
  /\ events (after_call Sample.service Sample.start (fetch_call (u16 "X")))
     = events Sample.start ++ [Called (clock Sample.start) (fetch_call (u16 "X"))]
  /\ (exists msg, no_changes_result
                  = JObj [(u16 "message", JStr msg); (u16 "diff", JObj [])]).
Proof.
  apply (updateCheck_equal_fields_no_changes Sample.service Sample.config_rw
           (u16 "X") (updates_of_args Sample.args_same) Sample.start Sample.current).
  - reflexivity.
  - reflexivity.
  - intros k v Hin Hv. simpl in Hin.
    destruct Hin as [H|[H|[H|[H|[]]]]]; inversion H; subst;
      solve [reflexivity | exfalso; apply Hv; reflexivity].
Defined.

(** C6: with a non-empty diff and [confirm] false, [updateCheck] returns the
    dry-run result (check id, current name, the diff) after a single
    remote call, the fetch, so nothing is written; a second call that
    fetches the same current check, from any world and against any
    service, returns the identical result. *)
Theorem updateCheck_dry_run_repeatable
    (R R' : Remote) (config : ChecklyConfig) (id : jsstring) (updates : jsobj)
    (w w' : World) (current : jsobj) :
  readOnly config = false ->
  check_reply R (ncalls w) (check_path id) = Ok current ->
  check_reply R' (ncalls w') (check_path id) = Ok current ->
  build_diff current updates <> [] ->
  updateCheck R config id updates false w
  = (Returned (dry_run_result id current (build_diff current updates)),
     after_call R w (fetch_call id))
  /\ events (after_call R w (fetch_call id))
     = events w ++ [Called (clock w) (fetch_call id)]
  /\ fst (updateCheck R' config id updates false w')
     = fst (updateCheck R config id updates false w)
  /\ events (snd (updateCheck R' config id updates false w'))
     = events w' ++ [Called (clock w') (fetch_call id)].
Proof.
  intros Hro Hrep Hrep' Hd.
  rewrite (updateCheck_fetches R config id updates false w current) by assumption.
  rewrite (updateCheck_fetches R' config id updates false w' current) by assumption.
  cbv zeta. rewrite (diff_nonempty_length _ Hd). simpl negb. cbv iota.
  repeat split.
Qed.

Lemma updateCheck_dry_run_repeatable_witness :
  let updates := updates_of_args (Sample.args_frequency false) in
  let w := Sample.start in
  let w' := after_call Sample.service Sample.start (fetch_call (u16 "X")) in
  updateCheck Sample.service Sample.config_rw (u16 "X") updates false w
  = (Returned (dry_run_result (u16 "X") Sample.current
                 [(u16 "frequency",
                   JObj [(u16 "from", JNum 5); (u16 "to", JNum 10)])]),
     w')
  /\ events w' = events w ++ [Called (clock w) (fetch_call (u16 "X"))]
  /\ fst (updateCheck Sample.service Sample.config_rw (u16 "X") updates false w')
     = fst (updateCheck Sample.service Sample.config_rw (u16 "X") updates false w)
  /\ events (snd (updateCheck Sample.service Sample.config_rw (u16 "X") updates false w'))
     = events w' ++ [Called (clock w') (fetch_call (u16 "X"))].
Proof.
  intros updates w w'.
  apply (updateCheck_dry_run_repeatable Sample.service Sample.service
           Sample.config_rw (u16 "X") updates w w' Sample.current).
  - reflexivity.
  - reflexivity.
  - reflexivity.
  - vm_compute. discriminate.
Defined.

(** The apply step logs the write whatever the service answers. *)
Lemma updateCheck_apply_events
    (R : Remote) (config : ChecklyConfig) (id : jsstring) (updates : jsobj)
    (w : World) (current : jsobj) :
  readOnly config = false ->
  check_reply R (ncalls w) (check_path id) = Ok current ->
  build_diff current updates <> [] ->
  events (snd (updateCheck R config id updates true w))
  = events w
    ++ [Called (clock w) (fetch_call id);
        Called (clock (after_call R w (fetch_call id)))
          (mkCall PUT (check_path id)
             (Some (JObj (serialize_props (merge_payload current updates)))))].
Proof.
  intros Hro Hrep Hd.
  rewrite (updateCheck_fetches R config id updates true w current) by assumption.
  cbv zeta. rewrite (diff_nonempty_length _ Hd). simpl negb. cbv iota.
  unfold bind, request.
  change (wire_body (JObj (merge_payload current updates)))
    with (Some (JObj (serialize_props (merge_payload current updates)))).
  destruct (put_reply R _ _ _); simpl; rewrite <- app_assoc; reflexivity.
Qed.

(** C7: a changed string field appears in the diff as the pair of previews
    of its current and of its requested value, where the preview of a
    string of more than 120 code units is its first 120 code units
    followed by an ellipsis and of any other string is the string itself;
    the body of the write carries the requested string whole, whatever its
    length. *)
Theorem diff_truncates_preview_not_written_value
    (R : Remote) (config : ChecklyConfig) (id : jsstring) (updates : jsobj)
    (w : World) (current : jsobj) (k s : jsstring) :
  readOnly config = false ->
  check_reply R (ncalls w) (check_path id) = Ok current ->
  wf_obj updates ->
  In (k, JStr s) (entries updates) ->
  strict_eq (get k current) (JStr s) = false ->
  get k (build_diff current updates)
  = JObj [(u16 "from", preview (get k current)); (u16 "to", preview (JStr s))]
  /\ (forall t,
        preview (JStr t)
        = JStr (if (120 <? List.length t)%nat then firstn 120 t ++ ellipsis else t))
  /\ exists body,
       events (snd (updateCheck R config id updates true w))
       = events w
         ++ [Called (clock w) (fetch_call id);
             Called (clock (after_call R w (fetch_call id)))
               (mkCall PUT (check_path id) (Some (JObj body)))]
       /\ get k body = JStr s.
Proof.
  intros Hro Hrep Hwf Hin Hne.
  assert (Hentry : get k (build_diff current updates)
                   = JObj [(u16 "from", preview (get k current));
                           (u16 "to", preview (JStr s))]).
  { unfold build_diff. apply get_fold_diff_changed; auto. discriminate. }
  split; [exact Hentry|]. split; [exact preview_string|].
  exists (serialize_props (merge_payload current updates)). split.
  - apply updateCheck_apply_events; auto.
    intros Hd. rewrite Hd in Hentry. discriminate.
  - assert (Hp : get k (merge_payload current updates) = JStr s)
      by (now apply merge_payload_takes_update).
    rewrite get_serialize_props; rewrite Hp; [reflexivity|discriminate].
Qed.

Lemma diff_truncates_preview_not_written_value_witness :
  let updates := updates_of_args Sample.args_script in
  get (u16 "script") (build_diff Sample.current updates)
  = JObj [(u16 "from", JStr (u16 "await page.goto(url)"));
          (u16 "to", JStr (repeat 120%N 120 ++ ellipsis))]
  /\ exists body,
       events (snd (updateCheck Sample.service Sample.config_rw (u16 "X")
                      updates true Sample.start))
       = [Called 0 (fetch_call (u16 "X"));
          Called 100 (mkCall PUT (check_path (u16 "X")) (Some (JObj body)))]
       /\ get (u16 "script") body = JStr (repeat 120%N 500).
Proof.
  intros updates.
  destruct (diff_truncates_preview_not_written_value Sample.service
              Sample.config_rw (u16 "X") updates Sample.start Sample.current
              (u16 "script") Sample.long_script)
    as [Hentry [_ [body [Hev Hbody]]]].
  - reflexivity.
  - reflexivity.
  - unfold wf_obj. simpl.
    repeat constructor; simpl; intuition discriminate.
  - left. reflexivity.
  - reflexivity.
  - split; [exact Hentry|]. exists body. split; [exact Hev|exact Hbody].
Defined.

(** C1, at the input on which the code departs from it: a tool call that
    asks only for a new frequency, with [confirm] true, writes a body
    without the name, script and activation of the fetched check; the
    fields the dispatcher does not name are kept. *)
Example update_check_write_loses_unrequested_fields :
  exists body,
    events (snd (update_check_case Sample.service Sample.config_rw (u16 "X")
                   (Sample.args_frequency true) Sample.start))
    = [Called 0 (fetch_call (u16 "X"));
       Called 100 (mkCall PUT (check_path (u16 "X")) (Some (JObj body)))]
    /\ get (u16 "frequency") body = JNum 10
    /\ get (u16 "name") Sample.current = JStr (u16 "Home page")
    /\ has (u16 "name") body = false
    /\ has (u16 "script") body = false
    /\ has (u16 "activated") body = false
    /\ get (u16 "alertSettings") body = get (u16 "alertSettings") Sample.current
    /\ get (u16 "name")
         (merge_payload Sample.current (updates_of_args (Sample.args_frequency true)))
       = JUndefined.
Proof.
  eexists. split; [vm_compute; reflexivity|].
  repeat split.
Qed.

(** ** The poll loop *)

Section PollLoop.

Variable R : Remote.

Lemma ncalls_after_pause (w : World) (ms : Z) :
  ncalls (after_pause R w ms) = ncalls w.
Proof.
  unfold ncalls, after_pause. simpl. rewrite filter_app, length_app. simpl. lia.
Qed.

Lemma ncalls_after_call (w : World) (c : Call) :
  ncalls (after_call R w c) = S (ncalls w).
Proof.
  unfold ncalls, after_call. simpl. rewrite filter_app, length_app. simpl. lia.
Qed.

Lemma ncalls_after_turn (sid : jsstring) (w : World) :
  ncalls (after_turn R sid w) = S (ncalls w).
Proof.
  unfold after_turn. now rewrite ncalls_after_call, ncalls_after_pause.
Qed.

Lemma ncalls_after_turns (sid : jsstring) (n : nat) (w : World) :
  ncalls (after_turns R sid n w) = (ncalls w + n)%nat.
Proof.
  revert w. induction n as [|n IH]; intros w; simpl; [lia|].
  rewrite IH, ncalls_after_turn. lia.
Qed.

(** A turn takes at least the 3 seconds of its pause. *)
Lemma clock_after_turn (sid : jsstring) (w : World) :
  clock w + 3000 <= clock (after_turn R sid w).
Proof. unfold after_turn, after_call, after_pause. simpl. lia. Qed.

Lemma clock_after_turns_le (sid : jsstring) (n : nat) (w : World) :
  clock w + 3000 * Z.of_nat n <= clock (after_turns R sid n w).
Proof.
  revert w. induction n as [|n IH]; intros w; simpl after_turns; [lia|].
  specialize (IH (after_turn R sid w)).
  pose proof (clock_after_turn sid w). lia.
Qed.

Lemma after_turns_succ (sid : jsstring) (n : nat) (w : World) :
  after_turns R sid (S n) w = after_turn R sid (after_turns R sid n w).
Proof.
  revert w. induction n as [|n IH]; intros w; [reflexivity|].
  change (after_turns R sid (S (S n)) w)
    with (after_turns R sid (S n) (after_turn R sid w)).
  rewrite IH. reflexivity.
Qed.

Lemma clock_after_turns_mono (sid : jsstring) (j n : nat) (w : World) :
  (j <= n)%nat -> clock (after_turns R sid j w) <= clock (after_turns R sid n w).
Proof.
  induction 1 as [|n Hle IH]; [lia|].
  rewrite after_turns_succ.
  pose proof (clock_after_turn sid (after_turns R sid n w)). lia.
Qed.

(** One loop-head test and, when it passes, one turn. *)
Lemma poll_loop_unfold (fuel : nat) (sid link : jsstring) (deadline : Z) (w : World) :
  poll_loop R (S fuel) sid link deadline w
  = if clock w <? deadline then
      match session_reply R (ncalls w) (session_path sid) with
      | Ok polled =>
          if negb (str_eqb (status polled) PROGRESS)
          then (Returned (completed_result polled), after_turn R sid w)
          else poll_loop R fuel sid link deadline (after_turn R sid w)
      | HttpError st text =>
          (Thrown (u16 "Checkly API " ++ method_name GET ++ u16 " "
                   ++ session_path sid ++ u16 " " ++ right_arrow ++ u16 " "
                   ++ decimal st ++ u16 ": " ++ text),
           after_turn R sid w)
      | Rejected reason => (Thrown reason, after_turn R sid w)
      end
    else (Returned (timeout_result sid link), w).
Proof.
  cbn [poll_loop]. unfold bind at 1. unfold date_now at 1.
  destruct (clock w <? deadline); [|reflexivity].
  unfold bind at 1. unfold sleep at 1.
  unfold bind at 1. unfold request at 1.
  rewrite ncalls_after_pause.
  change (wire_body JUndefined) with (@None jsval).
  fold (poll_call sid). fold (after_turn R sid w).
  destruct (session_reply R (ncalls w) (session_path sid)) as [polled| |];
    try reflexivity.
  destruct (negb (str_eqb (status polled) PROGRESS)); reflexivity.
Qed.

(** While the session is in progress and the deadline has not passed at
    the loop head, the loop keeps turning; it returns on the first poll
    that finds another status. *)
Lemma poll_loop_completes (sid link : jsstring) (deadline : Z)
    (polled : CheckSession) (m : nat) :
  forall (fuel : nat) (w : World),
    (forall j, (j < m)%nat ->
               exists q, session_reply R (ncalls w + j) (session_path sid) = Ok q
                         /\ status q = PROGRESS) ->
    session_reply R (ncalls w + m) (session_path sid) = Ok polled ->
    status polled <> PROGRESS ->
    clock (after_turns R sid m w) < deadline ->
    (m < fuel)%nat ->
    poll_loop R fuel sid link deadline w
    = (Returned (completed_result polled), after_turns R sid (S m) w).
Proof.
  induction m as [|m IH]; intros fuel w Hprog Hfin Hst Hclk Hfuel;
    (destruct fuel as [|fuel]; [lia|]); rewrite poll_loop_unfold.
  - simpl in Hclk. apply Z.ltb_lt in Hclk. rewrite Hclk.
    rewrite Nat.add_0_r in Hfin. rewrite Hfin.
    apply str_eqb_neq in Hst. rewrite Hst. reflexivity.
  - assert (Hhead : clock w < deadline).
    { pose proof (clock_after_turns_mono sid 0 (S m) w ltac:(lia)) as Hm.
      simpl after_turns at 1 in Hm. lia. }
    apply Z.ltb_lt in Hhead. rewrite Hhead.
    destruct (Hprog 0%nat ltac:(lia)) as [q [Hq Hqs]].
    rewrite Nat.add_0_r in Hq. rewrite Hq, Hqs.
    unfold PROGRESS at 1. rewrite str_eqb_refl. simpl negb. cbv iota.
    change (after_turns R sid (S (S m)) w)
      with (after_turns R sid (S m) (after_turn R sid w)).
    apply IH; try assumption; try lia.
    + intros j Hj. rewrite ncalls_after_turn.
      destruct (Hprog (S j) ltac:(lia)) as [q' [Hq' Hqs']].
      exists q'. split; [|assumption].
      now replace (S (ncalls w) + j)%nat with (ncalls w + S j)%nat by lia.
    + rewrite ncalls_after_turn.
      now replace (S (ncalls w) + m)%nat with (ncalls w + S m)%nat by lia.
Qed.

(** With a session that stays in progress the loop ends at the first
    loop-head test at or past the deadline, having turned only while the
    test was before it. *)
Lemma poll_loop_times_out (sid link : jsstring) (deadline : Z) :
  (forall n, exists q, session_reply R n (session_path sid) = Ok q
                       /\ status q = PROGRESS) ->
  forall (fuel : nat) (w : World),
    (0 < fuel)%nat ->
    deadline - clock w <= 3000 * (Z.of_nat fuel - 1) ->
    exists n,
      poll_loop R fuel sid link deadline w
      = (Returned (timeout_result sid link), after_turns R sid n w)
      /\ deadline <= clock (after_turns R sid n w)
      /\ (forall j, (j < n)%nat -> clock (after_turns R sid j w) < deadline)
      /\ (n = 0%nat \/ 3000 * (Z.of_nat n - 1) < deadline - clock w).
Proof.
  intros Hprog. induction fuel as [|fuel IH]; intros w Hpos Hfuel; [lia|].
  rewrite poll_loop_unfold.
  destruct (clock w <? deadline) eqn:Hhead.
  - apply Z.ltb_lt in Hhead.
    destruct (Hprog (ncalls w)) as [q [Hq Hqs]]. rewrite Hq, Hqs.
    unfold PROGRESS at 1. rewrite str_eqb_refl. simpl negb. cbv iota.
    pose proof (clock_after_turn sid w) as Hturn.
    destruct (IH (after_turn R sid w)) as [n [Hrun [Hend [Hheads Hcount]]]];
      [lia | lia |].
    exists (S n). simpl after_turns. split; [exact Hrun|]. split; [exact Hend|].
    split.
    + intros [|j] Hj; simpl after_turns; [exact Hhead|]. apply Hheads. lia.
    + right. destruct Hcount as [-> | Hcount]; lia.
  - apply Z.ltb_ge in Hhead. exists 0%nat. simpl after_turns.
    split; [reflexivity|]. split; [exact Hhead|]. split; [lia|now left].
Qed.

(** The events of [n] turns, each begun before the deadline. *)
Lemma after_turns_paced (sid : jsstring) (deadline : Z) (n : nat) :
  forall w : World,
    (forall j, (j < n)%nat -> clock (after_turns R sid j w) < deadline) ->
    exists evs,
      events (after_turns R sid n w) = events w ++ evs
      /\ polls_paced deadline (poll_call sid) evs
      /\ calls_in evs = n.
Proof.
  induction n as [|n IH]; intros w Hheads.
  - exists []. simpl. now rewrite app_nil_r.
  - destruct (IH (after_turn R sid w)) as [evs [Hev [Hpaced Hcount]]].
    { intros j Hj. apply (Hheads (S j)). lia. }
    exists (Paused (clock w) 3000
              :: Called (clock (after_pause R w 3000)) (poll_call sid) :: evs).
    split; [|split].
    + simpl after_turns. rewrite Hev. unfold after_turn, after_call, after_pause.
      simpl. rewrite <- !app_assoc. reflexivity.
    + simpl. repeat split; try assumption.
      * apply (Hheads 0%nat). lia.
      * lia.
    + unfold calls_in in *. simpl. now rewrite Hcount.
Qed.

End PollLoop.

Lemma poll_call_inj (sid sid' : jsstring) : poll_call sid = poll_call sid' -> sid = sid'.
Proof.
  unfold poll_call, session_path. intros H. now inversion H.
Qed.

(** Every remote call the loop makes is the poll of its session. *)
Lemma poll_loop_events (R : Remote) (sid link : jsstring) (deadline : Z) (fuel : nat) :
  forall w : World,
    exists evs,
      events (snd (poll_loop R fuel sid link deadline w)) = events w ++ evs
      /\ (forall t c, In (Called t c) evs -> c = poll_call sid).
Proof.
  induction fuel as [|fuel IH]; intros w.
  - exists []. simpl. rewrite app_nil_r. split; [reflexivity|contradiction].
  - rewrite poll_loop_unfold.
    assert (Hturn : forall evs',
               (forall t c, In (Called t c) evs' -> c = poll_call sid) ->
               forall t c,
                 In (Called t c)
                    ([Paused (clock w) 3000;
                      Called (clock (after_pause R w 3000)) (poll_call sid)] ++ evs') ->
                 c = poll_call sid).
    { intros evs' H t c [Hin|[Hin|Hin]]; [discriminate| |eauto].
      now inversion Hin. }
    assert (Hev : events (after_turn R sid w)
                  = events w ++ [Paused (clock w) 3000;
                                 Called (clock (after_pause R w 3000)) (poll_call sid)]).
    { unfold after_turn, after_call, after_pause. simpl.
      now rewrite <- app_assoc. }
    destruct (clock w <? deadline).
    + destruct (session_reply R (ncalls w) (session_path sid)) as [polled| |].
      * destruct (negb (str_eqb (status polled) PROGRESS)).
        -- eexists. split; [exact Hev|]. intros t c Hin.
           apply (Hturn [] ltac:(contradiction) t c). now rewrite app_nil_r.
        -- destruct (IH (after_turn R sid w)) as [evs [Hevs Hpolls]].
           eexists. split; [rewrite Hevs, Hev, <- app_assoc; reflexivity|].
           now apply Hturn.
      * eexists. split; [exact Hev|]. intros t c Hin.
        apply (Hturn [] ltac:(contradiction) t c). now rewrite app_nil_r.
      * eexists. split; [exact Hev|]. intros t c Hin.
        apply (Hturn [] ltac:(contradiction) t c). now rewrite app_nil_r.
    + exists []. simpl. rewrite app_nil_r. split; [reflexivity|contradiction].
Qed.

(** The loop depends on the service only through the session endpoint, the
    latencies and the timer overruns. *)
Lemma poll_loop_ext (R R' : Remote) (sid link : jsstring) (deadline : Z) (fuel : nat) :
  (forall n p, session_reply R' n p = session_reply R n p) ->
  (forall n, latency R' n = latency R n) ->
  (forall n, overrun R' n = overrun R n) ->
  forall w : World,
    poll_loop R' fuel sid link deadline w = poll_loop R fuel sid link deadline w.
Proof.
  intros Hs Hl Ho. induction fuel as [|fuel IH]; intros w; [reflexivity|].
  rewrite !poll_loop_unfold.
  assert (Hturn : after_turn R' sid w = after_turn R sid w).
  { unfold after_turn, after_call, after_pause. simpl.
    unfold ncalls, ntimers. simpl. now rewrite Hl, Ho. }
  rewrite Hs, Hturn, IH. reflexivity.
Qed.

(** ** The triggered run *)

Lemma runCheck_triggered (R : Remote) (fuel : nat) (config : ChecklyConfig)
    (id : jsstring) (awaitResult : bool) (w : World)
    (response : TriggerResponse) (s : CheckSession) (rest : list CheckSession) :
  readOnly config = false ->
  trigger_reply R (ncalls w) (trigger_body id) = Ok response ->
  sessions response = Some (s :: rest) ->
  runCheck R fuel config id awaitResult w
  = let w1 := after_call R w (trigger_call id) in
    if negb awaitResult then (Returned (triggered_result s), w1)
    else poll_loop R fuel (checkSessionId s) (checkSessionLink s)
           (clock w1 + 120000) w1.
Proof.
  intros Hro Hrep Hs. unfold runCheck. rewrite Hro.
  unfold bind at 1. unfold request at 1. rewrite Hrep, Hs. cbv zeta.
  change (wire_body (trigger_body id)) with (Some (trigger_body id)).
  fold (trigger_call id).
  destruct awaitResult; reflexivity.
Qed.

(** C5: in an awaited run, let the first [m] polls find the session in
    progress and poll [m+1] find another status, that poll being reached
    (the loop-head test before its pause reads a clock before the
    deadline).  Then [runCheck] returns the completion result built from
    the session that poll [m+1] fetched: its message with the final
    status, the check id and name, the session id, the status, the run
    locations, the start and stop times (null when there is no stop
    time), the elapsed time, the link, and the results (the empty list
    when the session has none).  The world it leaves is the one after
    exactly [m+1] turns of pause and poll: [m+1] polls follow the trigger
    and none comes after. *)
Theorem runCheck_returns_at_first_finished_poll
    (R : Remote) (fuel : nat) (config : ChecklyConfig) (id : jsstring) (w : World)
    (response : TriggerResponse) (s : CheckSession) (rest : list CheckSession)
    (m : nat) (polled : CheckSession) :
  readOnly config = false ->
  trigger_reply R (ncalls w) (trigger_body id) = Ok response ->
  sessions response = Some (s :: rest) ->
  let w1 := after_call R w (trigger_call id) in
  let sid := checkSessionId s in
  (forall j, (j < m)%nat ->
             exists q, session_reply R (ncalls w1 + j) (session_path sid) = Ok q
                       /\ status q = PROGRESS) ->
  session_reply R (ncalls w1 + m) (session_path sid) = Ok polled ->
  status polled <> PROGRESS ->
  clock (after_turns R sid m w1) < clock w1 + 120000 ->
  (m < fuel)%nat ->
  runCheck R fuel config id true w
  = (Returned
       (JObj [(u16 "message", JStr (u16 "Check completed: " ++ status polled));
              (u16 "checkId", JStr (checkId polled));
              (u16 "checkName", JStr (name polled));
              (u16 "sessionId", JStr (checkSessionId polled));
              (u16 "status", JStr (status polled));
              (u16 "runLocations", JArr (map JStr (runLocations polled)));
              (u16 "startedAt", JStr (startedAt polled));
              (u16 "stoppedAt",
               match stoppedAt polled with Some t => JStr t | None => JNull end);
              (u16 "timeElapsedMs", JNum (timeElapsed polled));
              (u16 "checkSessionLink", JStr (checkSessionLink polled));
              (u16 "results",
               match results polled with Some rs => JArr rs | None => JArr [] end)]),
     after_turns R sid (S m) w1)
  /\ ncalls (after_turns R sid (S m) w1) = (ncalls w + 1 + S m)%nat
  /\ get (u16 "status")
       (match completed_result polled with JObj o => o | _ => [] end)
     = JStr (status polled)
  /\ get (u16 "results")
       (match completed_result polled with JObj o => o | _ => [] end)
     = match results polled with Some rs => JArr rs | None => JArr [] end.
Proof.
  intros Hro Hrep Hs w1 sid Hprog Hfin Hst Hclk Hfuel.
  rewrite (runCheck_triggered R fuel config id true w response s rest) by assumption.
  cbv zeta. simpl negb. cbv iota. fold w1. fold sid.
  split; [now apply (poll_loop_completes R sid (checkSessionLink s)
                       (clock w1 + 120000) polled m fuel w1)|].
  split; [|split; reflexivity].
  rewrite ncalls_after_turns. unfold w1. rewrite ncalls_after_call. lia.
Qed.

Lemma runCheck_returns_at_first_finished_poll_witness :
  let R := Sample.passing Sample.one_session in
  let w1 := after_call R Sample.start (trigger_call (u16 "X")) in
  let polled := Sample.session (u16 "s1") (u16 "PASSED") in
  runCheck R 41 Sample.config_rw (u16 "X") true Sample.start
  = (Returned (completed_result polled), after_turns R (u16 "s1") 3 w1)
  /\ ncalls (after_turns R (u16 "s1") 3 w1) = 4%nat
  /\ clock (after_turns R (u16 "s1") 3 w1) = 9400.
Proof.
  intros R w1 polled.
  destruct (runCheck_returns_at_first_finished_poll R 41 Sample.config_rw
              (u16 "X") Sample.start Sample.one_session
              (Sample.session (u16 "s1") PROGRESS) [] 2 polled)
    as [Hrun [Hcount _]].
  - reflexivity.
  - reflexivity.
  - reflexivity.
  - intros j Hj. destruct j as [|[|j]]; [| |lia]; eexists; split; reflexivity.
  - reflexivity.
  - vm_compute. discriminate.
  - vm_compute. reflexivity.
  - lia.
  - split; [exact Hrun|]. split; [exact Hcount|reflexivity].
Defined.



(** The events of [n] turns, with the time of each. *)
Lemma after_turns_events (R : Remote) (sid : jsstring) (n : nat) (w : World) :
  events (after_turns R sid n w)
  = events w
    ++ flat_map (fun j =>
                   [Paused (clock (after_turns R sid j w)) 3000;
                    Called (clock (after_pause R (after_turns R sid j w) 3000))
                      (poll_call sid)])
         (seq 0 n).
Proof.
  induction n as [|n IH]; [simpl; now rewrite app_nil_r|].
  rewrite after_turns_succ, seq_S, flat_map_app. cbn [flat_map Nat.add].
  rewrite ?app_nil_r, app_assoc, <- IH.
  unfold after_turn. unfold after_call at 1. unfold after_pause at 1.
  cbn [events]. unfold after_pause at 1. cbn [events].
  now rewrite <- app_assoc.
Qed.




(** C10: when the trigger returns a first session [s] followed by others,
    the immediate result is built from [s] alone: it holds [s]'s check id
    and name, session id, status, run locations, start time and link,
    with the message and the hint; in an awaited run
    every remote call after the trigger is the poll of [s]'s id, so no
    other returned session with a different id is ever polled; and the
    whole run, awaited or not, is the one that a response listing [s]
    alone produces. *)
Theorem runCheck_uses_first_session_only
    (R : Remote) (fuel : nat) (config : ChecklyConfig) (id : jsstring) (w : World)
    (response : TriggerResponse) (s : CheckSession) (rest : list CheckSession) :
  readOnly config = false ->
  trigger_reply R (ncalls w) (trigger_body id) = Ok response ->
  sessions response = Some (s :: rest) ->
  let w1 := after_call R w (trigger_call id) in
  runCheck R fuel config id false w
  = (Returned
       (JObj [(u16 "message", JStr (u16 "Check triggered."));
              (u16 "checkId", JStr (checkId s));
              (u16 "checkName", JStr (name s));
              (u16 "sessionId", JStr (checkSessionId s));
              (u16 "status", JStr (status s));
              (u16 "runLocations", JArr (map JStr (runLocations s)));
              (u16 "startedAt", JStr (startedAt s));
              (u16 "checkSessionLink", JStr (checkSessionLink s));
              (u16 "hint",
               JStr (u16 "Poll with get_session_status(sessionId) or wait and call get_check_results(checkId)."))]),
     w1)
  /\ (exists evs,
        events (snd (runCheck R fuel config id true w)) = events w1 ++ evs
        /\ (forall t c, In (Called t c) evs -> c = poll_call (checkSessionId s))
        /\ (forall other t,
              In other rest -> checkSessionId other <> checkSessionId s ->
              ~ In (Called t (poll_call (checkSessionId other))) evs))
  /\ (forall (R' : Remote) (awaitResult : bool),
        (forall n p, session_reply R' n p = session_reply R n p) ->
        (forall n, latency R' n = latency R n) ->
        (forall n, overrun R' n = overrun R n) ->
        trigger_reply R' (ncalls w) (trigger_body id) = Ok {| sessions := Some [s] |} ->
        runCheck R' fuel config id awaitResult w
        = runCheck R fuel config id awaitResult w).
Proof.
  intros Hro Hrep Hs w1.
  split; [|split].
  - now rewrite (runCheck_triggered R fuel config id false w response s rest).
  - rewrite (runCheck_triggered R fuel config id true w response s rest) by assumption.
    cbv zeta. simpl negb. cbv iota. fold w1.
    destruct (poll_loop_events R (checkSessionId s) (checkSessionLink s)
                (clock w1 + 120000) fuel w1) as [evs [Hev Hpolls]].
    exists evs. split; [exact Hev|]. split; [exact Hpolls|].
    intros other t _ Hne Hin. apply Hpolls in Hin.
    apply poll_call_inj in Hin. contradiction.
  - intros R' awaitResult Hsess Hlat Hover Hrep'.
    rewrite (runCheck_triggered R fuel config id awaitResult w response s rest)
      by assumption.
    rewrite (runCheck_triggered R' fuel config id awaitResult w
               {| sessions := Some [s] |} s []) by (assumption || reflexivity).
    cbv zeta.
    assert (Hw : after_call R' w (trigger_call id) = after_call R w (trigger_call id)).
    { unfold after_call. now rewrite Hlat. }
    rewrite Hw. destruct awaitResult; simpl negb; cbv iota; [|reflexivity].
    now apply poll_loop_ext.
Qed.

Lemma runCheck_uses_first_session_only_witness :
  let R := Sample.passing Sample.two_sessions in
  let R' := Sample.passing Sample.one_session in
  let w1 := after_call R Sample.start (trigger_call (u16 "X")) in
  runCheck R 41 Sample.config_rw (u16 "X") false Sample.start
  = (Returned (triggered_result (Sample.session (u16 "s1") PROGRESS)), w1)
  /\ (exists evs,
        events (snd (runCheck R 41 Sample.config_rw (u16 "X") true Sample.start))
        = events w1 ++ evs
        /\ forall t, ~ In (Called t (poll_call (u16 "s2"))) evs)
  /\ runCheck R' 41 Sample.config_rw (u16 "X") true Sample.start
     = runCheck R 41 Sample.config_rw (u16 "X") true Sample.start.
Proof.
  intros R R' w1.
  destruct (runCheck_uses_first_session_only R 41 Sample.config_rw (u16 "X")
              Sample.start Sample.two_sessions
              (Sample.session (u16 "s1") PROGRESS)
              [Sample.session (u16 "s2") PROGRESS])
    as [Hnow [[evs [Hev [_ Hothers]]] Hsame]].
  - reflexivity.
  - reflexivity.
  - reflexivity.
  - split; [exact Hnow|]. split.
    + exists evs. split; [exact Hev|]. intros t.
      apply (Hothers (Sample.session (u16 "s2") PROGRESS) t).
      * left. reflexivity.
      * vm_compute. discriminate.
    + apply (Hsame R' true); reflexivity.
Defined.

(** * Further properties of the code *)

(** ** Configuration errors *)

(** [getConfig] throws for the API key when that variable is unset or
    empty, whatever the account id is; it throws for the account id when
    the key is present and the account id is unset or empty; otherwise it
    returns the two values unchanged, neither of them empty. *)
Theorem getConfig_required_variables (env : Env) :
  match getConfig env with
  | inl message =>
      ((env CHECKLY_API_KEY = None \/ env CHECKLY_API_KEY = Some [])
       /\ message = u16 "CHECKLY_API_KEY env var required")
      \/ ((exists c k, env CHECKLY_API_KEY = Some (c :: k))
          /\ (env CHECKLY_ACCOUNT_ID = None \/ env CHECKLY_ACCOUNT_ID = Some [])
          /\ message = u16 "CHECKLY_ACCOUNT_ID env var required")
  | inr config =>
      env CHECKLY_API_KEY = Some (apiKey config) /\ apiKey config <> []
      /\ env CHECKLY_ACCOUNT_ID = Some (accountId config) /\ accountId config <> []
  end.
Proof.
  unfold getConfig.
  destruct (env CHECKLY_API_KEY) as [[|c k]|]; try (left; split; auto; fail).
  destruct (env CHECKLY_ACCOUNT_ID) as [[|d a]|];
    try (right; split; [eauto|split; auto]; fail).
  simpl. repeat split; discriminate.
Qed.

(** ** Serialisation of JSON values *)

Lemma jsval_nested_ind (P : jsval -> Prop) :
  P JUndefined -> P JNull -> (forall b, P (JBool b)) -> (forall n, P (JNum n)) ->
  (forall s, P (JStr s)) ->
  (forall l, Forall P l -> P (JArr l)) ->
  (forall o, Forall (fun kv => P (snd kv)) o -> P (JObj o)) ->
  forall v, P v.
Proof.
  intros Hu Hn Hb Hz Hs Ha Ho. fix IH 1.
  intros [| |b|n|s|l|o];
    [exact Hu | exact Hn | apply Hb | apply Hz | apply Hs | apply Ha | apply Ho].
  - induction l as [|x l IHl]; constructor; [apply IH | exact IHl].
  - induction o as [|[k x] o IHo]; constructor; [apply IH | exact IHo].
Qed.

(** A value without [undefined] is sent as it is. *)
Lemma serialize_json_value (v : jsval) : json_value v = true -> serialize v = v.
Proof.
  induction v as [| |b|n|s|l IH|o IH] using jsval_nested_ind; intros Hj;
    try reflexivity; try discriminate.
  - simpl. f_equal. simpl in Hj.
    induction l as [|x l IHl]; [reflexivity|].
    simpl in Hj. apply andb_true_iff in Hj as [Hx Hl].
    inversion IH as [|? ? Hx' Hl']; subst. simpl.
    rewrite IHl by assumption.
    rewrite <- (Hx' Hx) at 2. destruct x; try reflexivity. discriminate.
  - rewrite serialize_obj. f_equal. simpl in Hj.
    induction o as [|[k x] o IHo]; [reflexivity|].
    simpl in Hj. apply andb_true_iff in Hj as [Hx Ho].
    inversion IH as [|? ? Hx' Ho']; subst. simpl in Hx'.
    rewrite serialize_props_cons, IHo by assumption.
    rewrite (Hx' Hx). destruct x; try reflexivity. discriminate.
Qed.

Lemma json_value_get (k : jsstring) (o : jsobj) :
  json_value (JObj o) = true -> has k o = true -> json_value (get k o) = true.
Proof.
  simpl. induction o as [|[k' x] o IH]; simpl; [discriminate|].
  intros Hj Hh. apply andb_true_iff in Hj as [Hx Ho].
  destruct (str_eqb k k'); simpl in Hh; auto.
Qed.

Lemma keys_serialize_props (k : jsstring) (o : jsobj) :
  In k (keys (serialize_props o)) -> In k (keys o).
Proof.
  induction o as [|[k' x] o IH]; [auto|].
  rewrite serialize_props_cons. destruct (is_undefined x); simpl; intuition.
Qed.

Lemma has_false_not_in (k : jsstring) (o : jsobj) : ~ In k (keys o) -> has k o = false.
Proof.
  intros Hn. destruct (has k o) eqn:E; [|reflexivity].
  apply has_in in E. contradiction.
Qed.

Lemma in_keys_has (k : jsstring) (o : jsobj) : In k (keys o) -> has k o = true.
Proof.
  induction o as [|[k' x] o IH]; simpl; [contradiction|].
  intros [->|Hin]; [now rewrite str_eqb_refl|].
  rewrite IH by assumption. apply orb_true_r.
Qed.

(** A property whose value is [undefined] is not sent at all. *)
Lemma has_serialize_props_undefined (k : jsstring) (o : jsobj) :
  wf_obj o -> get k o = JUndefined -> has k (serialize_props o) = false.
Proof.
  unfold wf_obj. induction o as [|[k' x] o IH]; intros Hnd Hg; [reflexivity|].
  simpl in Hnd. inversion Hnd as [|? ? Hnotin Hnd']; subst.
  rewrite serialize_props_cons. simpl in Hg.
  destruct (str_eqb k k') eqn:E.
  - subst x. simpl. apply str_eqb_eq in E. subst k'.
    apply has_false_not_in. intros Hin. apply keys_serialize_props in Hin.
    contradiction.
  - destruct (is_undefined x); simpl; [auto|]. rewrite E. simpl. auto.
Qed.

(** ** Objects keep each property name once *)

Lemma keys_set (k : jsstring) (v : jsval) (o : jsobj) :
  keys (set k v o) = if has k o then keys o else keys o ++ [k].
Proof.
  induction o as [|[k' v'] o IH]; simpl; [reflexivity|].
  rewrite (Bool.orb_comm (str_eqb k k')).
  destruct (str_eqb k k') eqn:E; simpl.
  - now rewrite orb_true_r.
  - rewrite orb_false_r, IH. now destruct (has k o).
Qed.

Lemma wf_set (k : jsstring) (v : jsval) (o : jsobj) : wf_obj o -> wf_obj (set k v o).
Proof.
  unfold wf_obj. intros Hnd. rewrite keys_set.
  destruct (has k o) eqn:E; [assumption|].
  apply NoDup_app; [assumption|repeat constructor; simpl; tauto|].
  intros x Hx [<-|[]]. apply in_keys_has in Hx. congruence.
Qed.

Lemma wf_spread (target source : jsobj) : wf_obj target -> wf_obj (spread target source).
Proof.
  revert target. induction source as [|[k v] source IH]; intros target Hwf; simpl;
    [assumption|].
  apply IH. now apply wf_set.
Qed.

Lemma wf_merge_payload (current updates : jsobj) : wf_obj (merge_payload current updates).
Proof. unfold merge_payload. apply wf_spread, wf_spread. constructor. Qed.

Lemma set_fresh (k : jsstring) (v : jsval) (o : jsobj) :
  ~ In k (keys o) -> set k v o = o ++ [(k, v)].
Proof.
  induction o as [|[k' v'] o IH]; simpl; intros Hn; [reflexivity|].
  destruct (str_eqb k k') eqn:E.
  - apply str_eqb_eq in E. subst. tauto.
  - rewrite IH by tauto. reflexivity.
Qed.

(** ** The diff, as a whole *)

Lemma fold_diff_appends (current : jsobj) (l : list (jsstring * jsval)) :
  forall d : jsobj,
    NoDup (keys l) ->
    (forall k, In k (keys d) -> ~ In k (keys l)) ->
    fold_left (diff_step current) l d
    = d ++ map (fun '(k, v) =>
                  (k, JObj [(u16 "from", preview (get k current));
                            (u16 "to", preview v)]))
            (filter (fun '(k, v) =>
                       negb (is_undefined v) && negb (strict_eq (get k current) v))
               l).
Proof.
  induction l as [|[k v] l IH]; intros d Hnd Hdis; cbn [fold_left filter].
  - now rewrite app_nil_r.
  - simpl in Hnd. inversion Hnd as [|? ? Hnotin Hnd']; subst.
    assert (Hfresh : ~ In k (keys d)).
    { intros Hin. apply (Hdis k Hin). now left. }
    unfold diff_step at 2.
    destruct (negb (is_undefined v) && negb (strict_eq (get k current) v)).
    + rewrite set_fresh by assumption. rewrite IH; [|assumption|].
      * cbn [map]. now rewrite <- app_assoc.
      * intros k' Hin. unfold keys in Hin. rewrite map_app in Hin.
        apply in_app_or in Hin as [Hin|[<-|[]]]; [|assumption].
        intros Hl. apply (Hdis k' Hin). now right.
    + apply IH; [assumption|].
      intros k' Hin Hl. apply (Hdis k' Hin). now right.
Qed.

(** The diff lists exactly the requested fields that have a value and
    differ from the fetched check, each once and in the order of the
    request, with the previews of the current and of the requested value;
    a field whose requested value is [undefined], or equals the current
    one, has no entry. *)
Theorem build_diff_lists_changed_fields (current updates : jsobj) :
  wf_obj updates ->
  build_diff current updates
  = map (fun '(k, v) =>
           (k, JObj [(u16 "from", preview (get k current));
                     (u16 "to", preview v)]))
      (filter (fun '(k, v) =>
                 negb (is_undefined v) && negb (strict_eq (get k current) v))
         (entries updates)).
Proof.
  intros Hwf. unfold build_diff.
  rewrite fold_diff_appends; [reflexivity|exact Hwf|contradiction].
Qed.

Lemma build_diff_lists_changed_fields_witness :
  build_diff Sample.current
    [(u16 "script", JUndefined); (u16 "name", JStr (u16 "Home page"));
     (u16 "activated", JBool false); (u16 "frequency", JNum 10)]
  = [(u16 "activated", JObj [(u16 "from", JBool true); (u16 "to", JBool false)]);
     (u16 "frequency", JObj [(u16 "from", JNum 5); (u16 "to", JNum 10)])].
Proof.
  apply (build_diff_lists_changed_fields Sample.current
           [(u16 "script", JUndefined); (u16 "name", JStr (u16 "Home page"));
            (u16 "activated", JBool false); (u16 "frequency", JNum 10)]).
  unfold wf_obj. simpl. repeat constructor; simpl; intuition discriminate.
Defined.

Lemma JStr_inj (a b : jsstring) : JStr a = JStr b -> a = b.
Proof. congruence. Qed.

(** A previewed string has at most 121 code units; a string of at most
    120 and any value that is not a string are shown as they are; and a
    preview is not shortened again. *)
Theorem preview_bounded (v : jsval) :
  (forall s, preview v = JStr s -> (List.length s <= 121)%nat)
  /\ (forall s, v = JStr s -> (List.length s <= 120)%nat -> preview v = v)
  /\ ((forall s, v <> JStr s) -> preview v = v)
  /\ preview (preview v) = preview v.
Proof.
  assert (Hcut : forall s : jsstring, (120 < List.length s)%nat ->
                 List.length (firstn 120 s ++ ellipsis) = 121%nat).
  { intros s Hs. rewrite length_app, length_firstn.
    unfold ellipsis. cbn [List.length]. lia. }
  split; [|split; [|split]].
  - intros s Hp. destruct v; try discriminate.
    rewrite preview_string in Hp. apply JStr_inj in Hp. subst s.
    destruct (120 <? List.length s0)%nat eqn:E.
    + apply Nat.ltb_lt in E. rewrite Hcut by assumption. lia.
    + apply Nat.ltb_ge in E. lia.
  - intros s -> Hs. rewrite preview_string.
    apply Nat.ltb_ge in Hs. now rewrite Hs.
  - intros Hns. destruct v; try reflexivity. now elim (Hns s).
  - destruct v; try reflexivity. rewrite preview_string.
    destruct (120 <? List.length s)%nat eqn:E; rewrite preview_string.
    + apply Nat.ltb_lt in E. rewrite Hcut by assumption. simpl Nat.ltb. cbv iota.
      rewrite firstn_app, firstn_firstn, length_firstn.
      replace (Nat.min 120 (List.length s)) with 120%nat by lia.
      simpl. now rewrite app_nil_r.
    + now rewrite E.
Qed.

(** ** The guarded update: calls and failures *)

(** [updateCheck] makes no remote call when the gate is on; otherwise it
    fetches, and a write follows the fetch only when the fetch succeeded,
    the diff is not empty and [confirm] is true; the write is the
    serialised merge of the request into the fetched check.  There is no
    other call. *)
Theorem updateCheck_writes_only_when_confirmed
    (R : Remote) (config : ChecklyConfig) (id : jsstring) (updates : jsobj)
    (confirm : bool) (w : World) :
  exists evs,
    events (snd (updateCheck R config id updates confirm w)) = events w ++ evs
    /\ ((evs = [] /\ readOnly config = true)
        \/ (evs = [Called (clock w) (fetch_call id)] /\ readOnly config = false)
        \/ (exists current,
              readOnly config = false /\ confirm = true
              /\ check_reply R (ncalls w) (check_path id) = Ok current
              /\ build_diff current updates <> []
              /\ evs = [Called (clock w) (fetch_call id);
                        Called (clock (after_call R w (fetch_call id)))
                          (put_call id (merge_payload current updates))])).
Proof.
  destruct (readOnly config) eqn:Hro.
  - exists []. unfold updateCheck. rewrite Hro.
    split; [symmetry; apply app_nil_r | left; auto].
  - destruct (check_reply R (ncalls w) (check_path id)) as [current|st text|reason] eqn:Hrep.
    + rewrite (updateCheck_fetches R config id updates confirm w current) by assumption.
      cbv zeta.
      destruct (build_diff current updates) as [|e d] eqn:Hd.
      * eexists. split; [reflexivity|]. right. left. auto.
      * simpl Nat.eqb. cbv iota. destruct confirm.
        -- pose proof (updateCheck_apply_events R config id updates w current Hro Hrep)
             as Hev.
           rewrite (updateCheck_fetches R config id updates true w current) in Hev
             by assumption.
           cbv zeta in Hev. rewrite Hd in Hev. simpl Nat.eqb in Hev. cbv iota in Hev.
           simpl negb in Hev. cbv iota in Hev. simpl negb. cbv iota.
           eexists. split; [apply Hev; discriminate|].
           right. right. exists current.
           repeat split; try reflexivity; try assumption.
           rewrite Hd. discriminate.
        -- eexists. split; [reflexivity|]. right. left. auto.
    + unfold updateCheck, bind, request. rewrite Hro, Hrep.
      eexists. split; [reflexivity|]. right. left. auto.
    + unfold updateCheck, bind, request. rewrite Hro, Hrep.
      eexists. split; [reflexivity|]. right. left. auto.
Qed.

(** When the fetch is answered outside the success range, [updateCheck]
    throws an error naming the method, the path, the status and the
    response text, for [confirm] true and false alike; the fetch is the
    only call, so nothing is written. *)
Theorem updateCheck_fetch_failure_throws
    (R : Remote) (config : ChecklyConfig) (id : jsstring) (updates : jsobj)
    (confirm : bool) (w : World) (st : Z) (text : jsstring) :
  readOnly config = false ->
  check_reply R (ncalls w) (check_path id) = HttpError st text ->
  updateCheck R config id updates confirm w
  = (Thrown (u16 "Checkly API GET " ++ check_path id ++ u16 " " ++ right_arrow
             ++ u16 " " ++ decimal st ++ u16 ": " ++ text),
     after_call R w (fetch_call id)).
Proof.
  intros Hro Hrep. unfold updateCheck, bind, request. rewrite Hro, Hrep. reflexivity.
Qed.

Lemma updateCheck_fetch_failure_throws_witness :
  updateCheck (Cases.failing Sample.service 0 404 Cases.not_found) Sample.config_rw
    (u16 "X") (updates_of_args (Sample.args_frequency true)) true Sample.start
  = (Thrown (u16 "Checkly API GET /v1/checks/X " ++ right_arrow ++ u16 " 404: Not Found"),
     after_call (Cases.failing Sample.service 0 404 Cases.not_found) Sample.start
       (fetch_call (u16 "X"))).
Proof.
  apply (updateCheck_fetch_failure_throws
           (Cases.failing Sample.service 0 404 Cases.not_found) Sample.config_rw
           (u16 "X") (updates_of_args (Sample.args_frequency true)) true Sample.start
           404 Cases.not_found); reflexivity.
Defined.

(** When the write is answered outside the success range, [updateCheck]
    throws the error of the PUT and returns no diff; the fetch and the
    write are the two calls made. *)
Theorem updateCheck_write_failure_throws
    (R : Remote) (config : ChecklyConfig) (id : jsstring) (updates : jsobj)
    (w : World) (current : jsobj) (st : Z) (text : jsstring) :
  readOnly config = false ->
  check_reply R (ncalls w) (check_path id) = Ok current ->
  build_diff current updates <> [] ->
  put_reply R (S (ncalls w)) (check_path id) (JObj (merge_payload current updates))
  = HttpError st text ->
  updateCheck R config id updates true w
  = (Thrown (u16 "Checkly API PUT " ++ check_path id ++ u16 " " ++ right_arrow
             ++ u16 " " ++ decimal st ++ u16 ": " ++ text),
     after_call R (after_call R w (fetch_call id))
       (put_call id (merge_payload current updates))).
Proof.
  intros Hro Hrep Hd Hput.
  rewrite (updateCheck_fetches R config id updates true w current) by assumption.
  cbv zeta. rewrite (diff_nonempty_length _ Hd). simpl negb. cbv iota.
  unfold bind, request. rewrite ncalls_after_call, Hput. reflexivity.
Qed.

Lemma updateCheck_write_failure_throws_witness :
  fst (updateCheck (Cases.failing Sample.service 1 500 (u16 "boom")) Sample.config_rw
         (u16 "X") (updates_of_args (Sample.args_frequency true)) true Sample.start)
  = Thrown (u16 "Checkly API PUT /v1/checks/X " ++ right_arrow ++ u16 " 500: boom").
Proof.
  rewrite (updateCheck_write_failure_throws
             (Cases.failing Sample.service 1 500 (u16 "boom")) Sample.config_rw
             (u16 "X") (updates_of_args (Sample.args_frequency true)) Sample.start
             Sample.current 500 (u16 "boom")).
  - reflexivity.
  - reflexivity.
  - reflexivity.
  - vm_compute. discriminate.
  - reflexivity.
Defined.

(** A successful apply returns the id, the name and the update time that
    the service reports in its answer to the write, together with the
    diff computed from the fetch; that diff is the one a dry run of the
    same request against the same fetched check shows. *)
Theorem updateCheck_apply_reports_server_state
    (R : Remote) (config : ChecklyConfig) (id : jsstring) (updates : jsobj)
    (w : World) (current updated : jsobj) :
  readOnly config = false ->
  check_reply R (ncalls w) (check_path id) = Ok current ->
  build_diff current updates <> [] ->
  put_reply R (S (ncalls w)) (check_path id) (JObj (merge_payload current updates))
  = Ok updated ->
  fst (updateCheck R config id updates true w)
  = Returned (JObj [(u16 "message", JStr (u16 "Check updated successfully."));
                    (u16 "checkId", get (u16 "id") updated);
                    (u16 "checkName", get (u16 "name") updated);
                    (u16 "diff", JObj (build_diff current updates));
                    (u16 "updatedAt", get (u16 "updatedAt") updated)])
  /\ fst (updateCheck R config id updates false w)
     = Returned (dry_run_result id current (build_diff current updates))
  /\ get (u16 "diff")
       (match dry_run_result id current (build_diff current updates) with
        | JObj o => o
        | _ => []
        end)
     = JObj (build_diff current updates).
Proof.
  intros Hro Hrep Hd Hput.
  rewrite (updateCheck_fetches R config id updates true w current) by assumption.
  rewrite (updateCheck_fetches R config id updates false w current) by assumption.
  cbv zeta. rewrite (diff_nonempty_length _ Hd). simpl negb. cbv iota.
  unfold bind, request. rewrite ncalls_after_call, Hput.
  repeat split.
Qed.

Lemma updateCheck_apply_reports_server_state_witness :
  fst (updateCheck Sample.service Sample.config_rw (u16 "X")
         [(u16 "name", JStr (u16 "Landing page"))] true Sample.start)
  = Returned (JObj [(u16 "message", JStr (u16 "Check updated successfully."));
                    (u16 "checkId", JStr (u16 "X"));
                    (u16 "checkName", JStr (u16 "Landing page"));
                    (u16 "diff",
                     JObj [(u16 "name",
                            JObj [(u16 "from", JStr (u16 "Home page"));
                                  (u16 "to", JStr (u16 "Landing page"))])]);
                    (u16 "updatedAt", JUndefined)]).
Proof.
  apply (updateCheck_apply_reports_server_state Sample.service Sample.config_rw
           (u16 "X") [(u16 "name", JStr (u16 "Landing page"))] Sample.start
           Sample.current
           (merge_payload Sample.current [(u16 "name", JStr (u16 "Landing page"))])).
  - reflexivity.
  - reflexivity.
  - vm_compute. discriminate.
  - reflexivity.
Defined.

Lemma get_defined_has (k : jsstring) (o : jsobj) : get k o <> JUndefined -> has k o = true.
Proof.
  intros Hg. destruct (has k o) eqn:E; [reflexivity|].
  apply get_absent in E. contradiction.
Qed.

Lemma json_value_defined (v : jsval) : json_value v = true -> v <> JUndefined.
Proof. intros Hj ->. discriminate. Qed.

(** What the serialised payload holds under a name that the request does
    not have, and under one that it has. *)
Lemma written_body_other (current updates : jsobj) (k : jsstring) :
  wf_obj current -> json_value (JObj current) = true ->
  ~ In k (keys updates) ->
  get k (serialize_props (merge_payload current updates)) = get k current
  /\ has k (serialize_props (merge_payload current updates)) = has k current.
Proof.
  intros Hwf Hj Hk.
  pose proof (merge_payload_keeps_others current updates k Hwf Hk) as Hm.
  destruct (has k current) eqn:Hh.
  - pose proof (json_value_get k current Hj Hh) as Hv.
    assert (Hg : get k (serialize_props (merge_payload current updates)) = get k current).
    { rewrite get_serialize_props; rewrite Hm.
      - now apply serialize_json_value.
      - now apply json_value_defined. }
    split; [exact Hg|].
    apply get_defined_has. rewrite Hg. now apply json_value_defined.
  - pose proof (get_absent k current Hh) as Hu. rewrite Hu in *.
    assert (Hb : has k (serialize_props (merge_payload current updates)) = false)
      by (apply has_serialize_props_undefined; [apply wf_merge_payload|exact Hm]).
    split; [now apply get_absent|exact Hb].
Qed.

Lemma written_body_requested (current updates : jsobj) (k : jsstring) (v : jsval) :
  wf_obj updates -> In (k, v) updates ->
  (v = JUndefined -> has k (serialize_props (merge_payload current updates)) = false)
  /\ (v <> JUndefined ->
      get k (serialize_props (merge_payload current updates)) = serialize v).
Proof.
  intros Hwf Hin.
  pose proof (merge_payload_takes_update current updates k v Hwf Hin) as Hm.
  split.
  - intros ->. apply has_serialize_props_undefined; [apply wf_merge_payload|exact Hm].
  - intros Hv. rewrite get_serialize_props; rewrite Hm; auto.
Qed.

(** On an apply, every property of the fetched check whose name is not a
    property name of the request is written with its fetched value, and a
    name the fetched check does not have is not written: the fields that
    the [Check] interface does not declare pass through unchanged. *)
Theorem updateCheck_passes_other_fields_through
    (R : Remote) (config : ChecklyConfig) (id : jsstring) (updates : jsobj)
    (w : World) (current : jsobj) :
  readOnly config = false ->
  check_reply R (ncalls w) (check_path id) = Ok current ->
  wf_obj current -> json_value (JObj current) = true ->
  build_diff current updates <> [] ->
  exists body,
    events (snd (updateCheck R config id updates true w))
    = events w
      ++ [Called (clock w) (fetch_call id);
          Called (clock (after_call R w (fetch_call id)))
            (mkCall PUT (check_path id) (Some (JObj body)))]
    /\ forall k, ~ In k (keys updates) ->
                 get k body = get k current /\ has k body = has k current.
Proof.
  intros Hro Hrep Hwf Hj Hd.
  exists (serialize_props (merge_payload current updates)). split.
  - now apply updateCheck_apply_events.
  - intros k Hk. now apply written_body_other.
Qed.

Lemma updateCheck_passes_other_fields_through_witness :
  exists body,
    events (snd (updateCheck Sample.service Sample.config_rw (u16 "X")
                   [(u16 "frequency", JNum 10)] true Sample.start))
    = [Called 0 (fetch_call (u16 "X"));
       Called 100 (mkCall PUT (check_path (u16 "X")) (Some (JObj body)))]
    /\ get (u16 "alertSettings") body
       = JObj [(u16 "escalationType", JStr (u16 "RUN_BASED"))]
    /\ get (u16 "retryStrategy") body = JNull
    /\ get (u16 "name") body = JStr (u16 "Home page").
Proof.
  destruct (updateCheck_passes_other_fields_through Sample.service Sample.config_rw
              (u16 "X") [(u16 "frequency", JNum 10)] Sample.start Sample.current)
    as [body [Hev Hkeep]].
  - reflexivity.
  - reflexivity.
  - unfold wf_obj. simpl. repeat constructor; simpl; intuition discriminate.
  - reflexivity.
  - vm_compute. discriminate.
  - exists body. split; [exact Hev|].
    assert (Hother : forall k, str_eqb k (u16 "frequency") = false ->
                               get k body = get k Sample.current).
    { intros k Hk. apply Hkeep. simpl. intros [Heq|[]].
      subst k. discriminate. }
    repeat split; apply Hother; reflexivity.
Defined.

(** ** The [update_check] case of the dispatcher *)

Lemma wf_updates_of_args (args : jsobj) : wf_obj (updates_of_args args).
Proof.
  unfold wf_obj, updates_of_args. simpl.
  repeat constructor; simpl; intuition discriminate.
Qed.

Lemma in_updates_of_args (args : jsobj) (k : jsstring) :
  In k (keys (updates_of_args args)) -> In (k, get k args) (updates_of_args args).
Proof.
  unfold updates_of_args. simpl.
  intros [<-|[<-|[<-|[<-|[]]]]]; auto 6.
Qed.

(** What a tool call that applies a change writes.  Under each of the four
    names [script], [name], [activated] and [frequency] the body has the
    argument of the call when the call gave one, and has no property at
    all when it did not, whatever the fetched check has there; under every
    other name it has what the fetched check has. *)
Theorem update_check_case_written_body
    (R : Remote) (config : ChecklyConfig) (id : jsstring) (args : jsobj)
    (w : World) (current : jsobj) :
  readOnly config = false ->
  check_reply R (ncalls w) (check_path id) = Ok current ->
  wf_obj current -> json_value (JObj current) = true ->
  build_diff current (updates_of_args args) <> [] ->
  to_boolean (get (u16 "confirm") args) = true ->
  exists body,
    events (snd (update_check_case R config id args w))
    = events w
      ++ [Called (clock w) (fetch_call id);
          Called (clock (after_call R w (fetch_call id)))
            (mkCall PUT (check_path id) (Some (JObj body)))]
    /\ (forall k,
          In k [u16 "script"; u16 "name"; u16 "activated"; u16 "frequency"] ->
          (get k args = JUndefined -> has k body = false)
          /\ (get k args <> JUndefined -> get k body = serialize (get k args)))
    /\ (forall k,
          ~ In k [u16 "script"; u16 "name"; u16 "activated"; u16 "frequency"] ->
          get k body = get k current).
Proof.
  intros Hro Hrep Hwf Hj Hd Hconfirm.
  exists (serialize_props (merge_payload current (updates_of_args args))).
  unfold update_check_case. rewrite Hconfirm. split; [|split].
  - now apply updateCheck_apply_events.
  - intros k Hk. apply written_body_requested.
    + apply wf_updates_of_args.
    + now apply in_updates_of_args.
  - intros k Hk. now apply written_body_other.
Qed.

Lemma update_check_case_written_body_witness :
  exists body,
    events (snd (update_check_case Sample.service Sample.config_rw (u16 "X")
                   [(u16 "id", JStr (u16 "X")); (u16 "activated", JBool false);
                    (u16 "confirm", JBool true)] Sample.start))
    = [Called 0 (fetch_call (u16 "X"));
       Called 100 (mkCall PUT (check_path (u16 "X")) (Some (JObj body)))]
    /\ get (u16 "activated") body = JBool false
    /\ has (u16 "frequency") body = false
    /\ get (u16 "locations") body = JArr [JStr (u16 "eu-west-1")].
Proof.
  destruct (update_check_case_written_body Sample.service Sample.config_rw (u16 "X")
              [(u16 "id", JStr (u16 "X")); (u16 "activated", JBool false);
               (u16 "confirm", JBool true)] Sample.start Sample.current)
    as [body [Hev [Hnamed Hother]]].
  - reflexivity.
  - reflexivity.
  - unfold wf_obj. simpl. repeat constructor; simpl; intuition discriminate.
  - reflexivity.
  - vm_compute. discriminate.
  - reflexivity.
  - exists body. split; [exact Hev|]. split; [|split].
    + apply (Hnamed (u16 "activated")); [simpl; auto|]. vm_compute. discriminate.
    + apply (Hnamed (u16 "frequency")); [simpl; auto|]. reflexivity.
    + apply (Hother (u16 "locations")). simpl. intuition discriminate.
Defined.

Lemma updateCheck_preview_events
    (R : Remote) (config : ChecklyConfig) (id : jsstring) (updates : jsobj) (w : World) :
  events (snd (updateCheck R config id updates false w)) = events w
  \/ events (snd (updateCheck R config id updates false w))
     = events w ++ [Called (clock w) (fetch_call id)].
Proof.
  unfold updateCheck. destruct (readOnly config); [now left|]. right.
  unfold bind, request.
  destruct (check_reply R (ncalls w) (check_path id)) as [current| |]; try reflexivity.
  destruct (List.length (keys (build_diff current updates)) =? 0)%nat; reflexivity.
Qed.

(** A tool call whose [confirm] argument is missing, [false], [null], [0]
    or the empty string (every value that [Boolean] maps to false) is a
    preview: whatever the service answers, the call adds at most the
    fetch to the calls made, and never a write. *)
Theorem update_check_case_without_confirm_never_writes
    (R : Remote) (config : ChecklyConfig) (id : jsstring) (args : jsobj) (w : World) :
  to_boolean (get (u16 "confirm") args) = false ->
  (get (u16 "confirm") args = JUndefined \/ get (u16 "confirm") args = JNull
   \/ get (u16 "confirm") args = JBool false \/ get (u16 "confirm") args = JNum 0
   \/ get (u16 "confirm") args = JStr [])
  /\ (events (snd (update_check_case R config id args w)) = events w
      \/ events (snd (update_check_case R config id args w))
         = events w ++ [Called (clock w) (fetch_call id)]).
Proof.
  intros Hc. split.
  - destruct (get (u16 "confirm") args) as [| |b|n|s|l|o]; simpl in Hc;
      try discriminate; auto.
    + subst b. auto.
    + apply negb_false_iff, Z.eqb_eq in Hc. subst n. auto 6.
    + destruct s; [auto 6|discriminate].
  - unfold update_check_case. rewrite Hc. apply updateCheck_preview_events.
Qed.

Lemma update_check_case_without_confirm_never_writes_witness :
  events (snd (update_check_case Sample.service Sample.config_rw (u16 "X")
                 [(u16 "id", JStr (u16 "X")); (u16 "frequency", JNum 10)]
                 Sample.start))
  = [Called 0 (fetch_call (u16 "X"))].
Proof.
  destruct (update_check_case_without_confirm_never_writes Sample.service
              Sample.config_rw (u16 "X")
              [(u16 "id", JStr (u16 "X")); (u16 "frequency", JNum 10)] Sample.start)
    as [_ [Hev|Hev]].
  - reflexivity.
  - reflexivity.
  - exact Hev.
Defined.

(** ** The triggered run: failures and bounds *)

(** When the trigger is answered outside the success range, [runCheck]
    throws the error of the POST, awaited or not; the trigger is the only
    event: no session exists, nothing is polled, no timer is armed. *)
Theorem runCheck_trigger_failure_throws
    (R : Remote) (fuel : nat) (config : ChecklyConfig) (id : jsstring)
    (awaitResult : bool) (w : World) (st : Z) (text : jsstring) :
  readOnly config = false ->
  trigger_reply R (ncalls w) (trigger_body id) = HttpError st text ->
  runCheck R fuel config id awaitResult w
  = (Thrown (u16 "Checkly API POST /v1/check-sessions/trigger " ++ right_arrow
             ++ u16 " " ++ decimal st ++ u16 ": " ++ text),
     after_call R w (trigger_call id)).
Proof.
  intros Hro Hrep. unfold runCheck, bind, request. rewrite Hro, Hrep. reflexivity.
Qed.

Lemma runCheck_trigger_failure_throws_witness :
  runCheck (Cases.failing Sample.service 0 404 Cases.not_found) 41 Sample.config_rw
    (u16 "X") true Sample.start
  = (Thrown (u16 "Checkly API POST /v1/check-sessions/trigger " ++ right_arrow
             ++ u16 " 404: Not Found"),
     after_call (Cases.failing Sample.service 0 404 Cases.not_found) Sample.start
       (trigger_call (u16 "X"))).
Proof.
  apply (runCheck_trigger_failure_throws
           (Cases.failing Sample.service 0 404 Cases.not_found) 41 Sample.config_rw
           (u16 "X") true Sample.start 404 Cases.not_found); reflexivity.
Defined.

(** A run that is not awaited makes the trigger call and nothing else,
    whatever the service answers; with the gate on it makes no call. *)
Theorem runCheck_not_awaited_only_triggers
    (R : Remote) (fuel : nat) (config : ChecklyConfig) (id : jsstring) (w : World) :
  events (snd (runCheck R fuel config id false w))
  = if readOnly config then events w
    else events w ++ [Called (clock w) (trigger_call id)].
Proof.
  unfold runCheck. destruct (readOnly config); [reflexivity|].
  unfold bind, request.
  destruct (trigger_reply R (ncalls w) (trigger_body id)) as [response| |];
    try reflexivity.
  destruct (sessions response) as [[|s rest]|]; reflexivity.
Qed.

Section PollLoopBounds.

Variable R : Remote.
Variables sid link : jsstring.
Variable deadline : Z.

(** A poll that fails ends the loop at once with its error. *)
Lemma poll_loop_fails (st : Z) (text : jsstring) (m : nat) :
  forall (fuel : nat) (w : World),
    (forall j, (j < m)%nat ->
               exists q, session_reply R (ncalls w + j) (session_path sid) = Ok q
                         /\ status q = PROGRESS) ->
    session_reply R (ncalls w + m) (session_path sid) = HttpError st text ->
    clock (after_turns R sid m w) < deadline ->
    (m < fuel)%nat ->
    poll_loop R fuel sid link deadline w
    = (Thrown (u16 "Checkly API GET " ++ session_path sid ++ u16 " " ++ right_arrow
               ++ u16 " " ++ decimal st ++ u16 ": " ++ text),
       after_turns R sid (S m) w).
Proof.
  induction m as [|m IH]; intros fuel w Hprog Hfail Hclk Hfuel;
    (destruct fuel as [|fuel]; [lia|]); rewrite poll_loop_unfold.
  - simpl in Hclk. apply Z.ltb_lt in Hclk. rewrite Hclk.
    rewrite Nat.add_0_r in Hfail. rewrite Hfail. reflexivity.
  - assert (Hhead : clock w < deadline).
    { pose proof (clock_after_turns_mono R sid 0 (S m) w ltac:(lia)) as Hm.
      simpl after_turns at 1 in Hm. lia. }
    apply Z.ltb_lt in Hhead. rewrite Hhead.
    destruct (Hprog 0%nat ltac:(lia)) as [q [Hq Hqs]].
    rewrite Nat.add_0_r in Hq. rewrite Hq, Hqs.
    unfold PROGRESS at 1. rewrite str_eqb_refl. simpl negb. cbv iota.
    change (after_turns R sid (S (S m)) w)
      with (after_turns R sid (S m) (after_turn R sid w)).
    apply IH; try assumption; try lia.
    + intros j Hj. rewrite ncalls_after_turn.
      destruct (Hprog (S j) ltac:(lia)) as [q' [Hq' Hqs']].
      exists q'. split; [|assumption].
      now replace (S (ncalls w) + j)%nat with (ncalls w + S j)%nat by lia.
    + rewrite ncalls_after_turn.
      now replace (S (ncalls w) + m)%nat with (ncalls w + S m)%nat by lia.
Qed.

(** However the loop ends, the world it leaves is the one after some
    number of turns, each begun at a loop-head test before the deadline. *)
Lemma poll_loop_shape (fuel : nat) :
  forall w : World,
    exists n,
      snd (poll_loop R fuel sid link deadline w) = after_turns R sid n w
      /\ (forall j, (j < n)%nat -> clock (after_turns R sid j w) < deadline).
Proof.
  induction fuel as [|fuel IH]; intros w.
  - exists 0%nat. split; [reflexivity|lia].
  - rewrite poll_loop_unfold.
    destruct (clock w <? deadline) eqn:Hhead.
    + apply Z.ltb_lt in Hhead.
      assert (Hone : exists n, after_turn R sid w = after_turns R sid n w
                /\ (forall j, (j < n)%nat -> clock (after_turns R sid j w) < deadline)).
      { exists 1%nat. split; [reflexivity|].
        intros j Hj. replace j with 0%nat by lia. exact Hhead. }
      destruct (session_reply R (ncalls w) (session_path sid)) as [polled| |];
        try exact Hone.
      destruct (negb (str_eqb (status polled) PROGRESS)); [exact Hone|].
      destruct (IH (after_turn R sid w)) as [n [Hw Hheads]].
      exists (S n). split; [exact Hw|].
      intros [|j] Hj; [exact Hhead|]. apply Hheads. lia.
    + exists 0%nat. split; [reflexivity|lia].
Qed.

(** Turns begun before the deadline are fewer than the deadline allows. *)
Lemma turns_before_deadline (n : nat) (w : World) :
  (forall j, (j < n)%nat -> clock (after_turns R sid j w) < deadline) ->
  n = 0%nat \/ 3000 * (Z.of_nat n - 1) < deadline - clock w.
Proof.
  intros Hheads. destruct n as [|n]; [now left|right].
  pose proof (Hheads n ltac:(lia)) as Hlast.
  pose proof (clock_after_turns_le R sid n w). lia.
Qed.

(** Fuel for one loop-head test more than the deadline allows turns is
    enough, and more fuel changes nothing. *)
Lemma poll_loop_enough_fuel (fuel : nat) :
  forall w : World,
    (0 < fuel)%nat ->
    deadline - clock w <= 3000 * (Z.of_nat fuel - 1) ->
    fst (poll_loop R fuel sid link deadline w) <> OutOfFuel
    /\ forall fuel', (fuel <= fuel')%nat ->
         poll_loop R fuel' sid link deadline w = poll_loop R fuel sid link deadline w.
Proof.
  induction fuel as [|fuel IH]; intros w Hpos Hfuel; [lia|].
  assert (Hrec : clock w < deadline ->
                 (0 < fuel)%nat
                 /\ deadline - clock (after_turn R sid w) <= 3000 * (Z.of_nat fuel - 1)).
  { intros Hhead. pose proof (clock_after_turn R sid w). lia. }
  split.
  - rewrite poll_loop_unfold.
    destruct (clock w <? deadline) eqn:Hhead; [|discriminate].
    apply Z.ltb_lt in Hhead. destruct (Hrec Hhead) as [Hpos' Hfuel'].
    destruct (session_reply R (ncalls w) (session_path sid)) as [polled| |];
      try discriminate.
    destruct (negb (str_eqb (status polled) PROGRESS)); [discriminate|].
    now apply IH.
  - intros [|fuel'] Hle; [lia|]. rewrite !poll_loop_unfold.
    destruct (clock w <? deadline) eqn:Hhead; [|reflexivity].
    apply Z.ltb_lt in Hhead. destruct (Hrec Hhead) as [Hpos' Hfuel'].
    destruct (session_reply R (ncalls w) (session_path sid)) as [polled| |];
      try reflexivity.
    destruct (negb (str_eqb (status polled) PROGRESS)); [reflexivity|].
    apply IH; try assumption. lia.
Qed.

Lemma clock_after_turn_exact (w : World) :
  clock (after_turn R sid w)
  = clock w + 3000 + Z.of_N (overrun R (ntimers w)) + Z.of_N (latency R (ncalls w)).
Proof.
  unfold after_turn. unfold after_call at 1. simpl clock.
  rewrite ncalls_after_pause. reflexivity.
Qed.

End PollLoopBounds.

(** A poll that is answered outside the success range aborts the awaited
    run: after [m] polls that found the session in progress, the failure
    of poll [m+1] is thrown as the error of that GET.  It is not retried
    and not turned into the timeout result: [m+1] polls were made in all. *)
Theorem runCheck_poll_failure_aborts
    (R : Remote) (fuel : nat) (config : ChecklyConfig) (id : jsstring) (w : World)
    (response : TriggerResponse) (s : CheckSession) (rest : list CheckSession)
    (m : nat) (st : Z) (text : jsstring) :
  readOnly config = false ->
  trigger_reply R (ncalls w) (trigger_body id) = Ok response ->
  sessions response = Some (s :: rest) ->
  let w1 := after_call R w (trigger_call id) in
  let sid := checkSessionId s in
  (forall j, (j < m)%nat ->
             exists q, session_reply R (ncalls w1 + j) (session_path sid) = Ok q
                       /\ status q = PROGRESS) ->
  session_reply R (ncalls w1 + m) (session_path sid) = HttpError st text ->
  clock (after_turns R sid m w1) < clock w1 + 120000 ->
  (m < fuel)%nat ->
  runCheck R fuel config id true w
  = (Thrown (u16 "Checkly API GET " ++ session_path sid ++ u16 " " ++ right_arrow
             ++ u16 " " ++ decimal st ++ u16 ": " ++ text),
     after_turns R sid (S m) w1)
  /\ ncalls (after_turns R sid (S m) w1) = (ncalls w + 1 + S m)%nat.
Proof.
  intros Hro Hrep Hs w1 sid Hprog Hfail Hclk Hfuel.
  rewrite (runCheck_triggered R fuel config id true w response s rest) by assumption.
  cbv zeta. simpl negb. cbv iota. fold w1. fold sid.
  split; [now apply poll_loop_fails|].
  rewrite ncalls_after_turns. unfold w1. rewrite ncalls_after_call. lia.
Qed.

Lemma runCheck_poll_failure_aborts_witness :
  let R := Cases.failing (Sample.passing Sample.one_session) 2 503 (u16 "busy") in
  let w1 := after_call R Sample.start (trigger_call (u16 "X")) in
  runCheck R 41 Sample.config_rw (u16 "X") true Sample.start
  = (Thrown (u16 "Checkly API GET /v1/check-sessions/s1 " ++ right_arrow
             ++ u16 " 503: busy"),
     after_turns R (u16 "s1") 2 w1)
  /\ ncalls (after_turns R (u16 "s1") 2 w1) = 3%nat.
Proof.
  intros R w1.
  apply (runCheck_poll_failure_aborts R 41 Sample.config_rw (u16 "X") Sample.start
           Sample.one_session (Sample.session (u16 "s1") PROGRESS) [] 1 503
           (u16 "busy")).
  - reflexivity.
  - reflexivity.
  - reflexivity.
  - intros j Hj. destruct j as [|j]; [|lia]. eexists. split; reflexivity.
  - reflexivity.
  - vm_compute. reflexivity.
  - lia.
Defined.

(** Whatever the service answers to the polls, an awaited run with fuel
    for 41 loop-head tests ends by returning or throwing, more fuel gives
    the same run, and the run makes at most 40 polls, each the poll of the
    triggered session after a 3-second pause armed before the deadline. *)
Theorem runCheck_polling_is_bounded
    (R : Remote) (fuel : nat) (config : ChecklyConfig) (id : jsstring) (w : World)
    (response : TriggerResponse) (s : CheckSession) (rest : list CheckSession) :
  readOnly config = false ->
  trigger_reply R (ncalls w) (trigger_body id) = Ok response ->
  sessions response = Some (s :: rest) ->
  (41 <= fuel)%nat ->
  let w1 := after_call R w (trigger_call id) in
  let deadline := clock w1 + 120000 in
  fst (runCheck R fuel config id true w) <> OutOfFuel
  /\ (forall fuel', (41 <= fuel')%nat ->
        runCheck R fuel' config id true w = runCheck R fuel config id true w)
  /\ exists evs,
       events (snd (runCheck R fuel config id true w)) = events w1 ++ evs
       /\ polls_paced deadline (poll_call (checkSessionId s)) evs
       /\ (calls_in evs <= 40)%nat.
Proof.
  intros Hro Hrep Hs Hfuel w1 deadline.
  assert (Hrun : forall f, runCheck R f config id true w
                           = poll_loop R f (checkSessionId s) (checkSessionLink s)
                               deadline w1).
  { intros f.
    now rewrite (runCheck_triggered R f config id true w response s rest). }
  destruct (poll_loop_enough_fuel R (checkSessionId s) (checkSessionLink s)
              deadline 41 w1) as [Hends Hmore]; [lia | unfold deadline; lia |].
  split; [|split].
  - rewrite Hrun, (Hmore fuel) by assumption. exact Hends.
  - intros fuel' Hfuel'. rewrite !Hrun, (Hmore fuel), (Hmore fuel') by assumption.
    reflexivity.
  - rewrite Hrun.
    destruct (poll_loop_shape R (checkSessionId s) (checkSessionLink s) deadline
                fuel w1) as [n [Hw Hheads]].
    destruct (after_turns_paced R (checkSessionId s) deadline n w1 Hheads)
      as [evs [Hev [Hpaced Hn]]].
    exists evs. rewrite Hw. repeat split; try assumption.
    rewrite Hn.
    destruct (turns_before_deadline R (checkSessionId s) deadline n w1 Hheads)
      as [-> | Hcount]; unfold deadline in *; lia.
Qed.

Lemma runCheck_polling_is_bounded_witness :
  let R := Cases.failing (Sample.passing Sample.one_session) 2 503 (u16 "busy") in
  fst (runCheck R 41 Sample.config_rw (u16 "X") true Sample.start) <> OutOfFuel
  /\ runCheck R 100 Sample.config_rw (u16 "X") true Sample.start
     = runCheck R 41 Sample.config_rw (u16 "X") true Sample.start.
Proof.
  intros R.
  destruct (runCheck_polling_is_bounded R 41 Sample.config_rw (u16 "X") Sample.start
              Sample.one_session (Sample.session (u16 "s1") PROGRESS) [])
    as [Hends [Hmore _]].
  - reflexivity.
  - reflexivity.
  - reflexivity.
  - lia.
  - split; [exact Hends|]. apply Hmore. lia.
Defined.

(** The awaited run ends less than one turn after the deadline: when no
    call takes more than [Lmax] ms and no timer fires more than [Omax] ms
    late, the clock at the end of the run is before the deadline plus
    3000 + [Omax] + [Lmax] ms, however the run ends. *)
Theorem runCheck_ends_within_one_turn_of_deadline
    (R : Remote) (fuel : nat) (config : ChecklyConfig) (id : jsstring) (w : World)
    (response : TriggerResponse) (s : CheckSession) (rest : list CheckSession)
    (Lmax Omax : N) :
  readOnly config = false ->
  trigger_reply R (ncalls w) (trigger_body id) = Ok response ->
  sessions response = Some (s :: rest) ->
  (forall n, (latency R n <= Lmax)%N) ->
  (forall n, (overrun R n <= Omax)%N) ->
  let w1 := after_call R w (trigger_call id) in
  clock (snd (runCheck R fuel config id true w))
  < clock w1 + 120000 + 3000 + Z.of_N Omax + Z.of_N Lmax.
Proof.
  intros Hro Hrep Hs Hlat Hover w1.
  rewrite (runCheck_triggered R fuel config id true w response s rest) by assumption.
  cbv zeta. simpl negb. cbv iota. fold w1.
  destruct (poll_loop_shape R (checkSessionId s) (checkSessionLink s)
              (clock w1 + 120000) fuel w1) as [n [Hw Hheads]].
  rewrite Hw. destruct n as [|n]; [simpl; lia|].
  rewrite after_turns_succ, clock_after_turn_exact.
  pose proof (Hheads n ltac:(lia)) as Hlast.
  pose proof (Hlat (ncalls (after_turns R (checkSessionId s) n w1))).
  pose proof (Hover (ntimers (after_turns R (checkSessionId s) n w1))).
  lia.
Qed.

Lemma runCheck_ends_within_one_turn_of_deadline_witness :
  let R := Sample.stuck 100 in
  let w1 := after_call R Sample.start (trigger_call (u16 "X")) in
  clock (snd (runCheck R 41 Sample.config_rw (u16 "X") true Sample.start))
  < clock w1 + 120000 + 3000 + 0 + 100.
Proof.
  intros R w1.
  apply (runCheck_ends_within_one_turn_of_deadline R 41 Sample.config_rw (u16 "X")
           Sample.start Sample.one_session (Sample.session (u16 "s1") PROGRESS) []
           100%N 0%N).
  - reflexivity.
  - reflexivity.
  - reflexivity.
  - intros n. simpl. lia.
  - intros n. simpl. lia.
Defined.

Lemma clock_after_turns_exact_timers (R : Remote) (sid : jsstring) (n : nat) :
  (forall i, latency R i = 0%N) -> (forall i, overrun R i = 0%N) ->
  forall w : World, clock (after_turns R sid n w) = clock w + 3000 * Z.of_nat n.
Proof.
  intros Hlat Hover. induction n as [|n IH]; intros w; [simpl; lia|].
  rewrite after_turns_succ, clock_after_turn_exact, IH, Hlat, Hover. lia.
Qed.

(** With timers that fire exactly on time and calls that take no time, an
    awaited run whose session stays in progress makes exactly 40 polls,
    none of them after the deadline, and returns the timeout result when
    the clock reads the deadline. *)
Theorem runCheck_exact_timers_forty_polls
    (R : Remote) (fuel : nat) (config : ChecklyConfig) (id : jsstring) (w : World)
    (response : TriggerResponse) (s : CheckSession) (rest : list CheckSession) :
  readOnly config = false ->
  trigger_reply R (ncalls w) (trigger_body id) = Ok response ->
  sessions response = Some (s :: rest) ->
  (forall n, exists q,
      session_reply R n (session_path (checkSessionId s)) = Ok q
      /\ status q = PROGRESS) ->
  (forall n, latency R n = 0%N) ->
  (forall n, overrun R n = 0%N) ->
  (41 <= fuel)%nat ->
  let w1 := after_call R w (trigger_call id) in
  let deadline := clock w1 + 120000 in
  exists w' evs,
    runCheck R fuel config id true w
    = (Returned (timeout_result (checkSessionId s) (checkSessionLink s)), w')
    /\ clock w' = deadline
    /\ events w' = events w1 ++ evs
    /\ calls_in evs = 40%nat
    /\ no_poll_after deadline evs.
Proof.
  intros Hro Hrep Hs Hprog Hlat Hover Hfuel w1 deadline.
  rewrite (runCheck_triggered R fuel config id true w response s rest) by assumption.
  cbv zeta. simpl negb. cbv iota. fold w1. fold deadline.
  destruct (poll_loop_times_out R (checkSessionId s) (checkSessionLink s)
              deadline Hprog fuel w1)
    as [n [Hrun [Hend [Hheads _]]]]; [lia | unfold deadline; lia |].
  pose proof (clock_after_turns_exact_timers R (checkSessionId s)) as Hclock.
  assert (Hn : n = 40%nat).
  { rewrite (Hclock n Hlat Hover) in Hend.
    destruct n as [|n]; [unfold deadline in Hend; lia|].
    pose proof (Hheads n ltac:(lia)) as Hlast.
    rewrite (Hclock n Hlat Hover) in Hlast. unfold deadline in *. lia. }
  subst n.
  destruct (after_turns_paced R (checkSessionId s) deadline 40 w1 Hheads)
    as [evs [Hev [_ Hcount]]].
  exists (after_turns R (checkSessionId s) 40 w1), evs.
  split; [exact Hrun|]. split; [|split; [exact Hev|split; [exact Hcount|]]].
  - rewrite (Hclock 40%nat Hlat Hover). unfold deadline. lia.
  - rewrite after_turns_events in Hev. apply app_inv_head in Hev. subst evs.
    intros t c Hin _. apply in_flat_map in Hin as [j [Hj Hin]].
    apply in_seq in Hj. destruct Hin as [Hin|[Hin|[]]]; [discriminate|].
    inversion Hin; subst.
    unfold after_pause. simpl clock.
    rewrite (Hclock j Hlat Hover), Hover. unfold deadline. lia.
Qed.

Lemma runCheck_exact_timers_forty_polls_witness :
  let R := Sample.stuck 0 in
  exists w' evs,
    runCheck R 41 Sample.config_rw (u16 "X") true Sample.start
    = (Returned (timeout_result (u16 "s1")
                   (checkSessionLink (Sample.session (u16 "s1") PROGRESS))), w')
    /\ clock w' = 120000
    /\ events w' = [Called 0 (trigger_call (u16 "X"))] ++ evs
    /\ calls_in evs = 40%nat
    /\ no_poll_after 120000 evs.
Proof.
  intros R.
  apply (runCheck_exact_timers_forty_polls R 41 Sample.config_rw (u16 "X")
           Sample.start Sample.one_session (Sample.session (u16 "s1") PROGRESS) []).
  - reflexivity.
  - reflexivity.
  - reflexivity.
  - intros n. eexists. split; reflexivity.
  - reflexivity.
  - reflexivity.
  - lia.
Defined.

(** ** The read operations *)

Lemma strict_eq_string (v : jsval) (s : jsstring) :
  strict_eq v (JStr s) = true -> v = JStr s.
Proof.
  destruct v; simpl; try discriminate. intros H. apply str_eqb_eq in H. now subst.
Qed.

(** [listChecks] makes one GET and returns the summaries (id, name, type,
    activated, frequency, locations, tags or the empty list, group id or
    null, update time) of fetched checks in the order fetched: with a
    non-empty [type], of exactly the fetched checks whose [checkType] is
    strictly equal to it, so every summary has that type; with no [type]
    or the empty string, of every fetched check.  The read-only flag
    plays no part. *)
Theorem listChecks_filters_by_type
    (R : Remote) (L : Listings) (beyond : Z -> jsstring) (config : ChecklyConfig)
    (params : ListParams) (w : World) (checks : list jsobj) :
  list_reply L (ncalls w) (list_path beyond params) = Ok checks ->
  let summary := fun c : jsobj =>
    JObj [(u16 "id", get (u16 "id") c);
          (u16 "name", get (u16 "name") c);
          (u16 "type", get (u16 "checkType") c);
          (u16 "activated", get (u16 "activated") c);
          (u16 "frequency", get (u16 "frequency") c);
          (u16 "locations", get (u16 "locations") c);
          (u16 "tags", nullish (get (u16 "tags") c) (JArr []));
          (u16 "groupId", nullish (get (u16 "groupId") c) JNull);
          (u16 "updatedAt", get (u16 "updatedAt") c)] in
  let of_type := fun (ty : jsstring) (c : jsobj) =>
    strict_eq (get (u16 "checkType") c) (JStr ty) in
  (forall ty, type params = Some ty -> ty <> [] ->
     listChecks R L beyond config params w
     = (Returned (JArr (map summary (filter (of_type ty) checks))),
        after_call R w (mkCall GET (list_path beyond params) None))
     /\ (forall o, In (JObj o) (map summary (filter (of_type ty) checks)) ->
                   get (u16 "type") o = JStr ty))
  /\ (truthy (type params) = false ->
      listChecks R L beyond config params w
      = (Returned (JArr (map summary checks)),
         after_call R w (mkCall GET (list_path beyond params) None))).
Proof.
  intros Hrep summary of_type.
  assert (Hrun : listChecks R L beyond config params w
                 = (Returned (JArr (map summary (filter_by_type (type params) checks))),
                    after_call R w (mkCall GET (list_path beyond params) None))).
  { unfold listChecks, bind, request. rewrite Hrep. reflexivity. }
  split.
  - intros ty Hty Hne. rewrite Hrun, Hty. unfold filter_by_type.
    assert (Ht : truthy (Some ty) = true) by (destruct ty; [congruence|reflexivity]).
    rewrite Ht. split; [reflexivity|].
    intros o Hin. apply in_map_iff in Hin as [c [Hc Hin]].
    apply filter_In in Hin as [_ Heq]. apply strict_eq_string in Heq.
    unfold summary in Hc. inversion Hc; subst o. exact Heq.
  - intros Hf. rewrite Hrun. unfold filter_by_type. rewrite Hf.
    now destruct (type params).
Qed.

Lemma listChecks_filters_by_type_witness :
  listChecks Sample.service Cases.listings Cases.beyond Sample.config_ro
    {| type := Some (u16 "API"); groupId := None; limit := None |} Sample.start
  = (Returned (JArr [check_summary Cases.api_check]),
     after_call Sample.service Sample.start
       (mkCall GET (u16 "/v1/checks?limit=100") None)).
Proof.
  destruct (listChecks_filters_by_type Sample.service Cases.listings Cases.beyond
              Sample.config_ro
              {| type := Some (u16 "API"); groupId := None; limit := None |}
              Sample.start [Sample.current; Cases.api_check] eq_refl)
    as [Hfiltered _].
  destruct (Hfiltered (u16 "API") eq_refl ltac:(discriminate)) as [Hrun _].
  rewrite Hrun. reflexivity.
Defined.

(** [getCheckResults] asks for [limit=min(limit, 100)]: for at most 100
    results, for 5 when the caller names no limit, and for the caller's
    limit when it is at most 100; the number is written with all its
    digits unless the limit is below -2^53.  It returns one summary per
    fetched result, in order, and a summary is [passed] exactly when the
    result has neither failures nor errors. *)
Theorem getCheckResults_caps_limit
    (R : Remote) (L : Listings) (beyond : Z -> jsstring) (config : ChecklyConfig)
    (id : jsstring) (limit : option Z) (w : World) (results : list CheckResult.t) :
  let asked := match limit with Some n => n | None => 5 end in
  results_reply L (ncalls w) (results_path beyond id asked) = Ok results ->
  exists n,
    getCheckResults R L beyond config id limit w
    = (Returned (JArr (map result_summary results)),
       after_call R w
         (mkCall GET
            (u16 "/v1/check-results/" ++ id ++ u16 "?limit=" ++ number_string beyond n)
            None))
    /\ n <= 100
    /\ (limit = None -> n = 5)
    /\ (forall l, limit = Some l -> (l <= 100 -> n = l) /\ (100 <= l -> n = 100))
    /\ (- 9007199254740992 <= asked -> number_string beyond n = decimal n)
    /\ (forall r, In r results ->
          (get (u16 "passed")
             (match result_summary r with JObj o => o | _ => [] end) = JBool true
           <-> CheckResult.hasFailures r = false /\ CheckResult.hasErrors r = false)).
Proof.
  intros asked Hrep. exists (Z.min asked 100).
  split; [|split; [|split; [|split; [|split]]]].
  - unfold getCheckResults, bind, request. fold asked. rewrite Hrep. reflexivity.
  - lia.
  - intros ->. reflexivity.
  - intros l ->. unfold asked. lia.
  - intros Hlow. unfold number_string.
    replace (Z.abs (Z.min asked 100) <=? 9007199254740992) with true
      by (symmetry; apply Z.leb_le; lia).
    reflexivity.
  - intros r _. simpl.
    destruct (CheckResult.hasFailures r), (CheckResult.hasErrors r); simpl;
      split; try tauto; try discriminate; intros [? ?]; discriminate.
Qed.

Lemma getCheckResults_caps_limit_witness :
  getCheckResults Sample.service Cases.listings Cases.beyond Sample.config_ro
    (u16 "X") (Some 250) Sample.start
  = (Returned (JArr [result_summary (Cases.one_result false);
                     result_summary (Cases.one_result true)]),
     after_call Sample.service Sample.start
       (mkCall GET (u16 "/v1/check-results/X?limit=100") None)).
Proof.
  destruct (getCheckResults_caps_limit Sample.service Cases.listings Cases.beyond
              Sample.config_ro (u16 "X") (Some 250) Sample.start
              [Cases.one_result false; Cases.one_result true])
    as [n [Hrun [_ [_ [Hcap _]]]]].
  - reflexivity.
  - destruct (Hcap 250 eq_refl) as [_ Hn]. rewrite Hrun, (Hn ltac:(lia)).
    reflexivity.
Defined.

(** With the gate on, [getCheck], [listChecks] and [getCheckResults] still
    make their one GET and return what was fetched; [getCheck] returns the
    fetched check whole, the undeclared fields included. *)
Theorem read_operations_ignore_gate
    (R : Remote) (L : Listings) (beyond : Z -> jsstring) (config : ChecklyConfig)
    (id : jsstring) (params : ListParams) (limit : Z) (w : World)
    (current : jsobj) (checks : list jsobj) (results : list CheckResult.t) :
  readOnly config = true ->
  check_reply R (ncalls w) (check_path id) = Ok current ->
  list_reply L (ncalls w) (list_path beyond params) = Ok checks ->
  results_reply L (ncalls w) (results_path beyond id limit) = Ok results ->
  getCheck R config id w = (Returned current, after_call R w (fetch_call id))
  /\ listChecks R L beyond config params w
     = (Returned (JArr (map check_summary (filter_by_type (type params) checks))),
        after_call R w (mkCall GET (list_path beyond params) None))
  /\ getCheckResults R L beyond config id (Some limit) w
     = (Returned (JArr (map result_summary results)),
        after_call R w (mkCall GET (results_path beyond id limit) None))
  /\ updateCheck R config id [] true w = (Returned read_only_result, w).
Proof.
  intros Hro Hc Hl Hr.
  unfold getCheck, listChecks, getCheckResults, updateCheck, bind, request.
  rewrite Hro, Hc, Hl, Hr. repeat split.
Qed.

Lemma read_operations_ignore_gate_witness :
  getCheck Sample.service Sample.config_ro (u16 "X") Sample.start
  = (Returned Sample.current,
     after_call Sample.service Sample.start (fetch_call (u16 "X"))).
Proof.
  apply (read_operations_ignore_gate Sample.service Cases.listings Cases.beyond
           Sample.config_ro (u16 "X") {| type := None; groupId := None; limit := None |} 5
           Sample.start Sample.current [Sample.current; Cases.api_check]
           [Cases.one_result false; Cases.one_result true]); reflexivity.
Defined.

(** ** What the dispatcher reports *)

(** With the gate on, the denial of [updateCheck] and of [runCheck] reaches
    the caller as an ordinary result, the JSON text of the object with the
    [error] message, not as an [isError] response. *)
Theorem respond_reports_denial_as_result
    (R : Remote) (config : ChecklyConfig) (id : jsstring) (args : jsobj)
    (fuel : nat) (w : World) :
  readOnly config = true ->
  respond (update_check_case R config id args) w
  = (Returned (Success read_only_result), w)
  /\ respond (run_check_case R fuel config id args) w
     = (Returned (Success read_only_result), w).
Proof.
  intros Hro.
  unfold respond, update_check_case, run_check_case, updateCheck, runCheck.
  rewrite Hro. split; reflexivity.
Qed.

Lemma respond_reports_denial_as_result_witness :
  respond (update_check_case Sample.service Sample.config_ro (u16 "X")
             (Sample.args_frequency true)) Sample.start
  = (Returned (Success read_only_result), Sample.start)
  /\ respond (run_check_case Sample.service 41 Sample.config_ro (u16 "X")
                (Sample.args_frequency true)) Sample.start
     = (Returned (Success read_only_result), Sample.start).
Proof.
  apply (respond_reports_denial_as_result Sample.service Sample.config_ro (u16 "X")
           (Sample.args_frequency true) 41 Sample.start).
  reflexivity.
Defined.

(** The dispatcher never lets an error escape: a case that throws is
    reported as an [isError] response whose text is [Error: ] followed by
    the message, so a fetch answered outside the success range reaches the
    caller with the method, path, status and response text. *)
Theorem respond_reports_remote_failure
    (R : Remote) (config : ChecklyConfig) (id : jsstring) (args : jsobj)
    (w : World) (st : Z) (text : jsstring) :
  readOnly config = false ->
  check_reply R (ncalls w) (check_path id) = HttpError st text ->
  respond (update_check_case R config id args) w
  = (Returned (Failure (u16 "Error: Checkly API GET " ++ check_path id ++ u16 " "
                        ++ right_arrow ++ u16 " " ++ decimal st ++ u16 ": " ++ text)),
     after_call R w (fetch_call id))
  /\ forall (m : M jsval) (w0 : World) (e : Error),
       fst (respond m w0) <> Thrown e.
Proof.
  intros Hro Hrep. split.
  - unfold respond, update_check_case, updateCheck, bind, request.
    rewrite Hro, Hrep. reflexivity.
  - intros m w0 e. unfold respond.
    destruct (m w0) as [[result|message|] w']; discriminate.
Qed.

Lemma respond_reports_remote_failure_witness :
  fst (respond (update_check_case (Cases.failing Sample.service 0 404 Cases.not_found)
                  Sample.config_rw (u16 "X") (Sample.args_frequency true))
         Sample.start)
  = Returned (Failure (u16 "Error: Checkly API GET /v1/checks/X " ++ right_arrow
                       ++ u16 " 404: Not Found")).
Proof.
  destruct (respond_reports_remote_failure
              (Cases.failing Sample.service 0 404 Cases.not_found) Sample.config_rw
              (u16 "X") (Sample.args_frequency true) Sample.start 404 Cases.not_found)
    as [Hrun _].
  - reflexivity.
  - reflexivity.
  - rewrite Hrun. reflexivity.
Defined.

(** ** The query of [listChecks] *)

Lemma form_safe_range (b : N) :
  form_safe b = true -> (42 <= b /\ b <= 122)%N.
Proof.
  unfold form_safe. rewrite !orb_true_iff, !andb_true_iff, !N.eqb_eq, !N.leb_le. lia.
Qed.

Lemma form_byte_safe (b : N) : form_safe b = true -> form_byte b = [b].
Proof.
  intros Hs. pose proof (form_safe_range b Hs) as Hr. unfold form_byte.
  replace (b =? 32)%N with false by (symmetry; apply N.eqb_neq; lia).
  now rewrite Hs.
Qed.

(** A string of letters, digits and [*-._] is its own encoding. *)
Lemma form_urlencode_safe (s : jsstring) :
  Forall (fun b => form_safe b = true) s -> form_urlencode s = s.
Proof.
  unfold form_urlencode. induction 1 as [|u r Hu Hr IH]; [reflexivity|].
  pose proof (form_safe_range u Hu) as Hrange.
  cbn [code_points]. unfold is_high_surrogate, is_low_surrogate.
  replace (55296 <=? u)%N with false by (symmetry; apply N.leb_gt; lia).
  replace (56320 <=? u)%N with false by (symmetry; apply N.leb_gt; lia).
  cbn [andb flat_map]. unfold utf8 at 1.
  replace (u <? 128)%N with true by (symmetry; apply N.ltb_lt; lia).
  cbn [app flat_map]. rewrite form_byte_safe by assumption.
  cbn [app]. now rewrite IH.
Qed.

Lemma uint_chars_safe (d : Decimal.uint) :
  Forall (fun b => form_safe b = true) (u16 (NilEmpty.string_of_uint d)).
Proof.
  induction d; simpl; constructor; try reflexivity; assumption.
Qed.

(** A number is written with digits and, when negative, a leading [-]. *)
Lemma decimal_safe (z : Z) : Forall (fun b => form_safe b = true) (decimal z).
Proof.
  unfold decimal. destruct (Z.to_int z) as [d|d]; cbn [NilZero.string_of_int].
  - destruct d; try apply uint_chars_safe. repeat constructor.
  - change (Forall (fun b => form_safe b = true)
              (45%N :: u16 (NilZero.string_of_uint d))).
    constructor; [reflexivity|].
    destruct d; try apply uint_chars_safe. repeat constructor.
Qed.

Lemma code_points_bound (s : jsstring) :
  Forall (fun u => (u < 65536)%N) s ->
  Forall (fun c => (c < 1114112)%N) (code_points s).
Proof.
  assert (G : forall n (t : jsstring),
             (List.length t <= n)%nat ->
             Forall (fun u => (u < 65536)%N) t ->
             Forall (fun c => (c < 1114112)%N) (code_points t)).
  { induction n as [|n IH]; intros [|u r] Hlen Hall; try constructor;
      try (simpl in Hlen; lia).
    simpl in Hlen. inversion Hall as [|? ? Hu Hr]; subst. cbn [code_points].
    destruct (is_high_surrogate u) eqn:Hhigh.
    - destruct r as [|l r']; [repeat constructor; lia|].
      inversion Hr as [|? ? Hl Hr']; subst.
      destruct (is_low_surrogate l) eqn:Hlow.
      + constructor.
        * unfold is_high_surrogate, is_low_surrogate in *.
          apply andb_true_iff in Hhigh as [_ Hh], Hlow as [_ Hlo].
          apply N.leb_le in Hh, Hlo. lia.
        * apply IH; [simpl in Hlen; lia|assumption].
      + constructor; [lia|]. apply IH; [lia|assumption].
    - destruct (is_low_surrogate u); (constructor; [lia|]);
        (apply IH; [lia|assumption]). }
  apply (G (List.length s)). lia.
Qed.

Lemma continuation_byte (a : N) : (128 + a mod 64 < 256)%N.
Proof. pose proof (N.mod_upper_bound a 64 ltac:(lia)). lia. Qed.

Lemma leading_byte (k a b q : N) :
  (a < b * q)%N -> (k + q <= 256)%N -> (k + a / b < 256)%N.
Proof.
  intros Ha Hk. pose proof (N.Div0.div_lt_upper_bound a b q Ha). lia.
Qed.

Lemma utf8_bytes (c : N) : (c < 1114112)%N -> Forall (fun b => (b < 256)%N) (utf8 c).
Proof.
  intros Hc. unfold utf8.
  destruct (c <? 128)%N eqn:E1; [apply N.ltb_lt in E1|];
    [|destruct (c <? 2048)%N eqn:E2; [apply N.ltb_lt in E2|];
      [|destruct (c <? 65536)%N eqn:E3; [apply N.ltb_lt in E3|]]];
    repeat apply Forall_cons; try apply Forall_nil; cbv beta;
    try apply continuation_byte.
  - lia.
  - apply (leading_byte 192 c 64 32); lia.
  - apply (leading_byte 224 c 4096 16); lia.
  - apply (leading_byte 240 c 262144 16); lia.
Qed.

Lemma hex_digit_safe (d : N) : (d < 16)%N -> form_safe (hex_digit d) = true.
Proof.
  intros Hd. unfold hex_digit, form_safe.
  rewrite !orb_true_iff, !andb_true_iff, !N.eqb_eq, !N.leb_le.
  destruct (d <? 10)%N eqn:E; [apply N.ltb_lt in E|apply N.ltb_ge in E]; lia.
Qed.

Lemma form_byte_chars (b : N) :
  (b < 256)%N ->
  Forall (fun x => form_safe x = true \/ x = 43%N \/ x = 37%N) (form_byte b).
Proof.
  intros Hb. unfold form_byte.
  destruct (b =? 32)%N; [|destruct (form_safe b) eqn:Hs];
    repeat apply Forall_cons; try apply Forall_nil; cbv beta.
  - right. left. reflexivity.
  - left. exact Hs.
  - right. right. reflexivity.
  - left. apply hex_digit_safe. apply N.Div0.div_lt_upper_bound. lia.
  - left. apply hex_digit_safe. apply N.mod_upper_bound. lia.
Qed.

(** The path [listChecks] fetches.  The query has [limit] alone, set to
    the caller's limit or to 100, when [groupId] is missing or empty, and
    [groupId] then [limit] otherwise; both values are written encoded.  A
    limit of magnitude at most 2^53 is written with all its digits, which
    the encoding leaves as they are.  The encoding of a group id holds
    only letters, digits and [*-._+%], so it cannot add a parameter or
    leave the query. *)
Theorem list_path_query (beyond : Z -> jsstring) (params : ListParams) :
  let n := match limit params with Some n => n | None => 100 end in
  (truthy (groupId params) = false ->
   list_path beyond params
   = u16 "/v1/checks?limit=" ++ form_urlencode (number_string beyond n))
  /\ (forall g, groupId params = Some g -> g <> [] ->
        list_path beyond params
        = u16 "/v1/checks?groupId=" ++ form_urlencode g ++ u16 "&limit="
          ++ form_urlencode (number_string beyond n))
  /\ (Z.abs n <= 9007199254740992 ->
      form_urlencode (number_string beyond n) = decimal n)
  /\ (forall g, Forall (fun u => (u < 65536)%N) g ->
        Forall (fun x => form_safe x = true \/ x = 43%N \/ x = 37%N)
          (form_urlencode g)).
Proof.
  intros n.
  assert (Hname : form_urlencode (u16 "limit") = u16 "limit") by reflexivity.
  assert (Hgroup : form_urlencode (u16 "groupId") = u16 "groupId") by reflexivity.
  split; [|split; [|split]].
  - intros Hf. unfold list_path, list_query. fold n.
    destruct (groupId params) as [g|]; [rewrite Hf|];
      cbn [qs_set qs_to_string]; rewrite Hname; reflexivity.
  - intros g Hg Hne. unfold list_path, list_query. fold n. rewrite Hg.
    assert (Ht : truthy (Some g) = true) by (destruct g; [congruence|reflexivity]).
    rewrite Ht. cbn [qs_set]. change (str_eqb (u16 "groupId") (u16 "limit")) with false.
    cbn iota. cbn [qs_set qs_to_string]. rewrite Hname, Hgroup.
    reflexivity.
  - intros Hn. unfold number_string.
    replace (Z.abs n <=? 9007199254740992) with true
      by (symmetry; now apply Z.leb_le).
    apply form_urlencode_safe, decimal_safe.
  - intros g Hall. unfold form_urlencode.
    apply Forall_flat_map, Forall_forall. intros b Hb.
    apply form_byte_chars.
    pose proof (code_points_bound g Hall) as Hcp.
    assert (Hbytes : Forall (fun b => (b < 256)%N) (flat_map utf8 (code_points g))).
    { apply Forall_flat_map. eapply Forall_impl; [|exact Hcp].
      intros c Hc. now apply utf8_bytes. }
    rewrite Forall_forall in Hbytes. now apply Hbytes.
Qed.

(** ** When nothing changes *)

Lemma set_nonempty (k : jsstring) (v : jsval) (o : jsobj) : set k v o <> [].
Proof. destruct o as [|[k' v'] o]; simpl; [|destruct (str_eqb k k')]; discriminate. Qed.

Lemma fold_diff_nonempty (current : jsobj) (l : list (jsstring * jsval)) :
  forall d : jsobj, d <> [] -> fold_left (diff_step current) l d <> [].
Proof.
  induction l as [|[k v] l IH]; intros d Hd; cbn [fold_left]; [exact Hd|].
  apply IH. unfold diff_step.
  destruct (negb (is_undefined v) && negb (strict_eq (get k current) v));
    [apply set_nonempty|exact Hd].
Qed.

Lemma build_diff_empty_iff (current updates : jsobj) :
  build_diff current updates = []
  <-> (forall k v, In (k, v) (entries updates) -> v <> JUndefined ->
                   strict_eq (get k current) v = true).
Proof.
  split; [|apply build_diff_all_equal].
  intros Hd k v Hin Hv.
  destruct (strict_eq (get k current) v) eqn:He; [reflexivity|exfalso].
  apply in_split in Hin as [l1 [l2 Hl]].
  unfold build_diff, entries in Hd. unfold entries in Hl. rewrite Hl in Hd.
  rewrite fold_left_app in Hd. cbn [fold_left] in Hd.
  revert Hd. apply fold_diff_nonempty.
  unfold diff_step. rewrite He.
  replace (is_undefined v) with false by (destruct v; simpl; congruence).
  apply set_nonempty.
Qed.

(** After a successful fetch, [updateCheck] returns the no-changes result
    exactly when every requested field that has a value is strictly equal
    to the fetched one: a request that differs in some field is previewed,
    applied or fails, but is never reported as unchanged. *)
Theorem updateCheck_no_changes_iff_equal
    (R : Remote) (config : ChecklyConfig) (id : jsstring) (updates : jsobj)
    (confirm : bool) (w : World) (current : jsobj) :
  readOnly config = false ->
  check_reply R (ncalls w) (check_path id) = Ok current ->
  (fst (updateCheck R config id updates confirm w) = Returned no_changes_result
   <-> (forall k v, In (k, v) (entries updates) -> v <> JUndefined ->
                    strict_eq (get k current) v = true)).
Proof.
  intros Hro Hrep. rewrite <- build_diff_empty_iff.
  rewrite (updateCheck_fetches R config id updates confirm w current) by assumption.
  cbv zeta. destruct (build_diff current updates) as [|e d] eqn:Hd.
  - simpl. split; reflexivity.
  - simpl Nat.eqb. cbv iota. split; [|discriminate].
    destruct confirm; simpl negb; cbv iota.
    + unfold bind, request.
      destruct (put_reply R _ _ _); simpl; intros H; discriminate H.
    + simpl. intros H. discriminate H.
Qed.

Lemma updateCheck_no_changes_iff_equal_witness :
  fst (updateCheck Sample.service Sample.config_rw (u16 "X")
         (updates_of_args (Sample.args_frequency false)) false Sample.start)
  <> Returned no_changes_result.
Proof.
  intros Hres.
  apply (updateCheck_no_changes_iff_equal Sample.service Sample.config_rw (u16 "X")
           (updates_of_args (Sample.args_frequency false)) false Sample.start
           Sample.current eq_refl eq_refl) with (k := u16 "frequency") (v := JNum 10)
    in Hres.
  - discriminate Hres.
  - simpl. auto.
  - discriminate.
Defined.
